(** * Golden Coast Capital market scoring tool: the scoring engine of [app.py]

    A shallow embedding of the computational core of [src/app.py] (lines
    26-142): the mortgage and cash-flow columns, the capital filter, the
    weight resolver, min-max normalisation with directionality, the
    composite Master Score and the ranking.

    Numbers.  Python floats and float64 cells are idealised as exact
    rationals ([Q], compared with [==]): rounding, overflow and signed
    zeros are not modelled, and the loaded sheet is taken to hold finite
    numbers in every cell the engine reads.  The one non-finite value that
    the engine itself manufactures from finite data, the [nan] that pandas
    returns as [min()] and [max()] of an empty column, is modelled by
    [None].

    Frames.  A [DataFrame] is column-major, as in pandas: an index of row
    labels and a list of named columns in schema order.  Only numeric
    columns are tracked; the text columns of the sheet (market name and
    state) ride along with the row label and are never read before line
    142. *)

From Stdlib Require Import List String Ascii ZArith QArith Qpower Qabs Qminmax.
From Stdlib Require Import Lia Lqa Bool Permutation Sorted.
Import ListNotations.

Local Open Scope string_scope.
Local Open Scope Q_scope.

(** ** Outcomes of a run *)

(** The exceptions the engine can raise on well-typed input. *)
Inductive exn : Type :=
| KeyError (key : string)
| ZeroDivisionError.

(** [Ok] is normal completion and [Raise] an uncaught Python exception.
    [NonFinite] marks the runs in which numpy, dividing a column by a zero
    cell, produces [inf] or [nan] without raising: Python carries on, but
    with cells that the rational model does not track. *)
Inductive result (A : Type) : Type :=
| Ok (a : A)
| Raise (e : exn)
| NonFinite.

Arguments Ok {A} a.
Arguments Raise {A} e.
Arguments NonFinite {A}.

Definition bind {A B : Type} (r : result A) (k : A -> result B) : result B :=
  match r with
  | Ok a => k a
  | Raise e => Raise e
  | NonFinite => NonFinite
  end.

Notation "x <- e ;; k" := (bind e (fun x => k))
  (at level 61, e at next level, right associativity).

(** ** Python scalar arithmetic *)

(** [a / b] on Python floats raises on a zero divisor. *)
Definition py_div (a b : Q) : result Q :=
  if Qeq_bool b 0 then Raise ZeroDivisionError else Ok (a / b).

(** [b ** n] for a float base and an int exponent: a zero base with a
    negative exponent raises, otherwise the (possibly reciprocal) power. *)
Definition py_pow (b : Q) (n : Z) : result Q :=
  if (n <? 0)%Z && Qeq_bool b 0 then Raise ZeroDivisionError
  else Ok (Qpower b n).

(** [x > 0] followed by [.astype(int)]. *)
Definition positive_flag (x : Q) : Q :=
  if Qle_bool x 0 then 0 else 1.

(** ** Strings *)

(** Python's [needle in haystack] on strings. *)
Fixpoint str_in (needle hay : string) : bool :=
  String.prefix needle hay ||
  match hay with
  | EmptyString => false
  | String _ rest => str_in needle rest
  end.

(** ** Series and frames *)

Definition Series : Type := list Q.

Record DataFrame : Type := mkDF {
  index : list nat;
  columns : list (string * Series)
}.

Definition nrows (df : DataFrame) : nat := List.length (index df).

Definition colnames (df : DataFrame) : list string := map fst (columns df).

(** Every column is as long as the index. *)
Definition wf (df : DataFrame) : Prop :=
  Forall (fun c => List.length (snd c) = nrows df) (columns df).

Fixpoint lookup (c : string) (cols : list (string * Series)) : option Series :=
  match cols with
  | [] => None
  | (k, s) :: rest => if String.eqb k c then Some s else lookup c rest
  end.

(** [c in df.columns] *)
Definition has_col (df : DataFrame) (c : string) : bool :=
  match lookup c (columns df) with Some _ => true | None => false end.

(** [df[c]] *)
Definition getcol (df : DataFrame) (c : string) : result Series :=
  match lookup c (columns df) with
  | Some s => Ok s
  | None => Raise (KeyError c)
  end.

(** Assignment keeps the position of an existing column and appends a new
    one at the end of the schema. *)
Fixpoint assign (c : string) (s : Series) (cols : list (string * Series))
  : list (string * Series) :=
  match cols with
  | [] => [(c, s)]
  | (k, old) :: rest =>
      if String.eqb k c then (k, s) :: rest else (k, old) :: assign c s rest
  end.

(** [df[c] = s] for a Series [s] on the frame's own index. *)
Definition setcol (df : DataFrame) (c : string) (s : Series) : DataFrame :=
  mkDF (index df) (assign c s (columns df)).

(** A value that is a Series on some paths and a plain number on others
    ([col_norm] and [score] in the scoring loop). *)
Inductive value : Type :=
| Scalar (q : Q)
| Ser (s : Series).

(** Assigning a number fills the column with it, one cell per row. *)
Definition broadcast (n : nat) (v : value) : Series :=
  match v with
  | Scalar q => repeat q n
  | Ser s => s
  end.

(** [df[c] = v] *)
Definition setval (df : DataFrame) (c : string) (v : value) : DataFrame :=
  setcol df c (broadcast (nrows df) v).

(** Elementwise arithmetic of two Series on the same index. *)
Fixpoint map2 (f : Q -> Q -> Q) (a b : Series) : Series :=
  match a, b with
  | x :: a', y :: b' => f x y :: map2 f a' b'
  | _, _ => []
  end.

(** [a / b] on columns: numpy does not raise on a zero divisor. *)
Fixpoint series_div (a b : Series) : result Series :=
  match a, b with
  | x :: a', y :: b' =>
      if Qeq_bool y 0 then NonFinite
      else (rest <- series_div a' b' ;; Ok (x / y :: rest))
  | _, _ => Ok []
  end.

(** Boolean-mask selection [s[mask]]. *)
Fixpoint select {A : Type} (mask : list bool) (s : list A) : list A :=
  match mask, s with
  | b :: mask', x :: s' => if b then x :: select mask' s' else select mask' s'
  | _, _ => []
  end.

(** [df[mask]] *)
Definition filter_rows (mask : list bool) (df : DataFrame) : DataFrame :=
  mkDF (select mask (index df))
       (map (fun c => (fst c, select mask (snd c))) (columns df)).

(** Positional selection [s.take(indexer)]. *)
Definition take {A : Type} (d : A) (indexer : list nat) (s : list A) : list A :=
  map (fun i => nth i s d) indexer.

Definition take_rows (indexer : list nat) (df : DataFrame) : DataFrame :=
  mkDF (take 0%nat indexer (index df))
       (map (fun c => (fst c, take 0 indexer (snd c))) (columns df)).

(** ** Inputs of a pass (lines 14-24) *)

Record Assumptions : Type := mkAssumptions {
  interest_rate : Q;          (* slider value / 100 *)
  loan_term_years : Z;
  down_payment_pct : Q;       (* slider value / 100 *)
  str_expense_ratio : Q;
  ltr_expense_ratio : Q;
  max_investment : Q;
  include_renovation : bool
}.

(** line 24 *)
Definition buffer (a : Assumptions) : Q :=
  if include_renovation a then 30000 else 0.

(** ** Financial model (lines 27-53) *)

Definition price_col : string :=
  "Small Multi Median Sales Price 2025 YtD (2–4 Units)".

(** line 30 *)
Definition monthly_interest (a : Assumptions) : Q := interest_rate a / 12.

(** line 31 *)
Definition num_payments (a : Assumptions) : Z := (loan_term_years a * 12)%Z.

(** The parenthesised factor of lines 34-37, a computation on Python
    floats: numerator, then denominator, then the division. *)
Definition amort_factor (mi : Q) (n : Z) : result Q :=
  p1 <- py_pow (1 + mi) n ;;
  p2 <- py_pow (1 + mi) n ;;
  py_div (mi * p1) (p2 - 1).

(** lines 29 and 34-37, given the price column read at line 28. *)
Definition monthly_mortgage (a : Assumptions) (price : Series) : result Series :=
  let loan_amount := map (fun p => p * (1 - down_payment_pct a)) price in
  factor <- amort_factor (monthly_interest a) (num_payments a) ;;
  Ok (map (fun l => l * factor) loan_amount).

(** lines 41-47: expenses, cash flows and the two 0/1 flags. *)
Definition cash_flows (a : Assumptions) (df : DataFrame) : result DataFrame :=
  rev <- getcol df "Annual Revenue" ;;
  let df := setcol df "STR_Expenses"
              (map (fun r => r * str_expense_ratio a / 12) rev) in
  rev <- getcol df "Annual Revenue" ;;
  mort <- getcol df "Est_Mortgage" ;;
  expn <- getcol df "STR_Expenses" ;;
  let df := setcol df "STR_CashFlow"
              (map2 Qminus (map2 Qminus (map (fun r => r / 12) rev) mort) expn) in
  rent <- getcol df "2 Bed SFR Median Rent" ;;
  let df := setcol df "LTR_Expenses"
              (map (fun r => r * ltr_expense_ratio a) rent) in
  rent <- getcol df "2 Bed SFR Median Rent" ;;
  mort <- getcol df "Est_Mortgage" ;;
  expn <- getcol df "LTR_Expenses" ;;
  let df := setcol df "LTR_CashFlow"
              (map2 Qminus (map2 Qminus rent mort) expn) in
  scf <- getcol df "STR_CashFlow" ;;
  let df := setcol df "STR_Positive_CF" (map positive_flag scf) in
  lcf <- getcol df "LTR_CashFlow" ;;
  Ok (setcol df "LTR_Positive_CF" (map positive_flag lcf)).

(** line 53 *)
Definition total_cash_required (a : Assumptions) (df : DataFrame)
  : result DataFrame :=
  p <- getcol df price_col ;;
  Ok (setcol df "Total_Cash_Required"
        (map (fun x => (down_payment_pct a + (4 # 100)) * x + buffer a) p)).

(** lines 27-53 in program order. *)
Definition financial_model (a : Assumptions) (df : DataFrame)
  : result DataFrame :=
  price <- getcol df price_col ;;
  mm <- monthly_mortgage a price ;;
  let df := setcol df "Est_Mortgage" mm in
  df <- cash_flows a df ;;
  rev <- getcol df "Annual Revenue" ;;
  yield <- series_div rev price ;;
  let df := setcol df "STR_Yield" yield in
  total_cash_required a df.

(** ** Capital filter (line 54) *)

Definition capital_filter (a : Assumptions) (df : DataFrame)
  : result DataFrame :=
  t <- getcol df "Total_Cash_Required" ;;
  Ok (filter_rows (map (fun x => Qle_bool x (max_investment a)) t) df).

(** ** Weight resolver (lines 57-128) *)

(** A Python dict, in insertion order. *)
Definition dict (V : Type) : Type := list (string * V).

Fixpoint dict_get {V : Type} (k : string) (d : dict V) : result V :=
  match d with
  | [] => Raise (KeyError k)
  | (k', v) :: rest => if String.eqb k' k then Ok v else dict_get k rest
  end.

(** [d[k] = v]: an existing key keeps its place. *)
Fixpoint dict_set {V : Type} (k : string) (v : V) (d : dict V) : dict V :=
  match d with
  | [] => [(k, v)]
  | (k', v') :: rest =>
      if String.eqb k' k then (k', v) :: rest else (k', v') :: dict_set k v rest
  end.

Definition presets : dict (dict Q) :=
  [ ("Balanced",
      [ ("STR Performance", 40 # 100); ("LTR Safety Net", 25 # 100);
        ("Entry & Value", 15 # 100); ("Fundamentals", 20 # 100) ]);
    ("Cash Flow Heavy",
      [ ("STR Performance", 50 # 100); ("LTR Safety Net", 30 # 100);
        ("Entry & Value", 10 # 100); ("Fundamentals", 10 # 100) ]);
    ("Appreciation First",
      [ ("STR Performance", 30 # 100); ("LTR Safety Net", 20 # 100);
        ("Entry & Value", 20 # 100); ("Fundamentals", 30 # 100) ]) ].

Definition groups : dict (list string) :=
  [ ("STR Performance",
      [ "Market Score"; "STR_Yield"; "Occupancy"; "Booking Demand Growth";
        "STR_Positive_CF" ]);
    ("LTR Safety Net",
      [ "Gross Yield (SFR)"; "LTR_Positive_CF"; "Rent-to-Price Ratio" ]);
    ("Entry & Value",
      [ "Small Multi Median Sales Price 2025 YtD (2–4 Units)";
        "Small Multi Discount Markets"; "Home Value Growth (5 Years)" ]);
    ("Fundamentals",
      [ "Population Growth (5 years)"; "Rent Growth (YoY)"; "Vacancy Rate" ]) ].

Inductive weight_mode : Type := HighLevelThemes | DetailedMetrics.

(** The sidebar as the engine sees it: the radio button, the preset
    selector, and [slider label default], the position of the slider with
    that label (its default until the user moves it). *)
Record Widgets : Type := mkWidgets {
  mode : weight_mode;
  preset_choice : string;
  slider : string -> Q -> Q
}.

(** lines 111-114 *)
Fixpoint group_weights_of (w : Widgets) (preset_weights : dict Q)
    (gs : dict (list string)) (acc : dict Q) : result (dict Q) :=
  match gs with
  | [] => Ok acc
  | (group, _) :: rest =>
      dflt <- dict_get group preset_weights ;;
      group_weights_of w preset_weights rest
        (dict_set group (slider w group dflt) acc)
  end.

(** lines 115-118, inner comprehension over one group's members. *)
Fixpoint theme_members (group_weights : dict Q) (group : string)
    (members : list string) (todo : list string) (acc : dict Q)
  : result (dict Q) :=
  match todo with
  | [] => Ok acc
  | metric :: rest =>
      gw <- dict_get group group_weights ;;
      wt <- py_div gw (inject_Z (Z.of_nat (List.length members))) ;;
      theme_members group_weights group members rest (dict_set metric wt acc)
  end.

(** lines 115-118 *)
Fixpoint theme_metrics (group_weights : dict Q) (gs : dict (list string))
    (acc : dict Q) : result (dict Q) :=
  match gs with
  | [] => Ok acc
  | (group, members) :: rest =>
      acc <- theme_members group_weights group members members acc ;;
      theme_metrics group_weights rest acc
  end.

(** lines 123-128 *)
Fixpoint detailed_metrics (w : Widgets) (gs : dict (list string))
    (acc : dict Q) : dict Q :=
  match gs with
  | [] => acc
  | (_, metric_list) :: rest =>
      detailed_metrics w rest
        (fold_left (fun m metric => dict_set metric (slider w metric (5 # 100)) m)
                   metric_list acc)
  end.

(** lines 107-128: the flat mapping metric -> weight. *)
Definition resolve_weights (w : Widgets) : result (dict Q) :=
  match mode w with
  | HighLevelThemes =>
      preset_weights <- dict_get (preset_choice w) presets ;;
      group_weights <- group_weights_of w preset_weights groups [] ;;
      theme_metrics group_weights groups []
  | DetailedMetrics => Ok (detailed_metrics w groups [])
  end.

(** ** Normalisation and scoring (lines 131-141) *)

(** [s.min()] and [s.max()]: [None] is the [nan] of an empty column. *)
Definition series_min (s : Series) : option Q :=
  match s with
  | [] => None
  | x :: rest => Some (fold_left Qmin rest x)
  end.

Definition series_max (s : Series) : option Q :=
  match s with
  | [] => None
  | x :: rest => Some (fold_left Qmax rest x)
  end.

(** [s / d] for a column and a number: like [series_div], numpy does not
    raise, and there is nothing to divide in an empty column. *)
Definition div_by_number (s : Series) (d : Q) : result Series :=
  match s with
  | [] => Ok []
  | _ :: _ => if Qeq_bool d 0 then NonFinite else Ok (map (fun v => v / d) s)
  end.

(** line 134.  On an empty column both extremes are [nan]; [nan != nan]
    holds, and the arithmetic of the empty column with [nan] is the empty
    column. *)
Definition col_norm (s : Series) : result value :=
  match series_max s, series_min s with
  | Some mx, Some mn =>
      if negb (Qeq_bool mx mn)
      then (n <- div_by_number (map (fun v => v - mn) s) (mx - mn) ;; Ok (Ser n))
      else Ok (Scalar 0)
  | _, _ => Ok (Ser [])
  end.

(** line 136 *)
Definition is_cost_like (col : string) : bool :=
  str_in "Price" col || str_in "Vacancy" col.

(** [score += t] for a Series [t]; [score] is the int 0 until the first
    weighted column is met. *)
Definition add_series (score : value) (t : Series) : value :=
  match score with
  | Scalar q => Ser (map (fun x => q + x) t)
  | Ser s => Ser (map2 Qplus s t)
  end.

(** lines 133-139: one turn of the loop. *)
Definition score_step (st : DataFrame * value) (item : string * Q)
  : result (DataFrame * value) :=
  let '(df, score) := st in
  let '(col, weight) := item in
  if has_col df col then
    c <- getcol df col ;;
    cn <- col_norm c ;;
    let df := setval df (col ++ "_norm") cn in
    n <- getcol df (col ++ "_norm") ;;
    if is_cost_like col
    then Ok (df, add_series score (map (fun x => weight * (1 - x)) n))
    else Ok (df, add_series score (map (fun x => weight * x) n))
  else Ok (df, score).

(** lines 132-139 *)
Fixpoint score_loop (items : dict Q) (st : DataFrame * value)
  : result (DataFrame * value) :=
  match items with
  | [] => Ok st
  | item :: rest => st' <- score_step st item ;; score_loop rest st'
  end.

(** lines 131-141 *)
Definition master_score (metrics : dict Q) (df : DataFrame) : result DataFrame :=
  st <- score_loop metrics (df, Scalar 0) ;;
  Ok (setval (fst st) "Master Score" (snd st)).

(** ** Ranking (line 142) *)

(** [sort_values] is called with pandas' default [kind], which leaves the
    order of equal keys to the sorting kernel.  The kernel is a parameter:
    from the key column it gives the positions of the rows in output
    order. *)
Section Ranking.

Variable argsort_desc : Series -> list nat.

Definition sort_values_desc (key : string) (df : DataFrame)
  : result DataFrame :=
  keys <- getcol df key ;;
  Ok (take_rows (argsort_desc keys) df).

(** lines 131-142 *)
Definition score_and_rank (metrics : dict Q) (df : DataFrame)
  : result DataFrame :=
  df <- master_score metrics df ;;
  sort_values_desc "Master Score" df.

(** lines 27-142: from the loaded sheet to [sorted_df]. *)
Definition pipeline (a : Assumptions) (w : Widgets) (df : DataFrame)
  : result DataFrame :=
  df <- financial_model a df ;;
  df <- capital_filter a df ;;
  metrics <- resolve_weights w ;;
  score_and_rank metrics df.

End Ranking.

(** What any sorting kernel guarantees for a descending sort: its output
    lists every position once, and the keys fall along it. *)
Definition sorts_descending (k : Series -> list nat) : Prop :=
  forall s : Series,
    Permutation (k s) (seq 0 (List.length s)) /\
    StronglySorted (fun x y => y <= x) (take 0 (k s) s).

(** ** Row views, used to state what filtering and sorting do to records *)

(** The records of a frame, in row order: the label and the cells in
    schema order. *)
Fixpoint rows_of (idx : list nat) (cols : list (string * Series))
  : list (nat * list Q) :=
  match idx with
  | [] => []
  | l :: idx' =>
      (l, map (fun c => hd 0 (snd c)) cols)
        :: rows_of idx' (map (fun c => (fst c, tl (snd c))) cols)
  end.

Definition rows (df : DataFrame) : list (nat * list Q) :=
  rows_of (index df) (columns df).

(** The column stored as [col + "_norm"] for a raw column [s] (line 135). *)
Definition normalized (s : Series) : Series :=
  match col_norm s with
  | Ok v => broadcast (List.length s) v
  | _ => []
  end.

(** Row [i] of a running score. *)
Definition cell (v : value) (i : nat) : Q :=
  match v with
  | Scalar q => q
  | Ser s => nth i s 0
  end.

(** [m] is the least (greatest) value of the column. *)
Definition is_min (s : Series) (m : Q) : Prop :=
  Exists (fun x => x == m) s /\ Forall (fun x => m <= x) s.

Definition is_max (s : Series) (m : Q) : Prop :=
  Exists (fun x => x == m) s /\ Forall (fun x => x <= m) s.

(** The 14 recognised metrics, in catalog order. *)
Definition all_metrics : list string := List.concat (map snd groups).

(** A running score fits the frame when it is still a number or a Series
    with one cell per row. *)
Definition score_shape (df : DataFrame) (score : value) : Prop :=
  match score with
  | Scalar _ => True
  | Ser s => List.length s = nrows df
  end.

(** The directional-normalised value of market [i] on metric [col], from
    the raw column of [df]: the min-max normalised cell, inverted for the
    cost-like metrics. *)
Definition directional_norm (df : DataFrame) (col : string) (i : nat) : Q :=
  match lookup col (columns df) with
  | Some c =>
      let n := nth i (normalized c) 0 in
      if is_cost_like col then 1 - n else n
  | None => 0
  end.

(** The weighted sum over the metrics of the scheme that are columns of
    [df], accumulated from zero in the order of the scheme. *)
Definition weighted_sum (df : DataFrame) (metrics : dict Q) (i : nat) : Q :=
  fold_left (fun acc item => acc + snd item * directional_norm df (fst item) i)
            (filter (fun item => has_col df (fst item)) metrics)
            0.

(** The column that one turn of the loop adds to the score, for a raw
    column [c] (lines 136-139). *)
Definition turn_term (col : string) (weight : Q) (c : Series) : Series :=
  if is_cost_like col
  then map (fun x => weight * (1 - x)) (normalized c)
  else map (fun x => weight * x) (normalized c).

(** The weight a resolved scheme gives a metric (0 when it gives none). *)
Definition weight_of (metrics : dict Q) (m : string) : Q :=
  match dict_get m metrics with
  | Ok v => v
  | _ => 0
  end.

(** The sum of the resolved weights of a group's members. *)
Definition group_total (metrics : dict Q) (members : list string) : Q :=
  fold_right Qplus 0 (map (weight_of metrics) members).

(** A concrete kernel that meets the contract of a descending sort, for
    the runs that need one: insertion sort on (key, position) pairs.  It
    is not numpy's kernel, and the order it gives to equal keys is its
    own. *)
Fixpoint insert_after (x : Q * nat) (l : list (Q * nat)) : list (Q * nat) :=
  match l with
  | [] => [x]
  | y :: l' =>
      if Qle_bool (fst x) (fst y) then y :: insert_after x l' else x :: l
  end.

Definition insertion_argsort_desc (s : Series) : list nat :=
  map snd (fold_right insert_after [] (combine s (seq 0 (List.length s)))).

(** Descending order on (key, position) pairs. *)
Definition desc_pair (a b : Q * nat) : Prop := fst b <= fst a.

(** The record that positional selection yields for a position outside
    the frame. *)
Definition blank_row (cols : list (string * Series)) : nat * list Q :=
  (0%nat, map (fun _ => 0) cols).

(** ** Sample inputs *)

(** A 0% loan over 10 years with nothing down. *)
Definition zero_rate_loan : Assumptions :=
  mkAssumptions 0 10 0 (30 # 100) (40 # 100) 100000 true.

(** A 6% loan over 30 years with nothing down. *)
Definition six_percent_loan : Assumptions :=
  mkAssumptions (6 # 100) 30 0 (30 # 100) (40 # 100) 100000 true.

(** Three markets with one price-like metric. *)
Definition price_frame : DataFrame :=
  mkDF [0; 1; 2]%nat [("Median Price", [300; 100; 200])].

(** Three markets with three of the weighted metrics and their cash
    requirement. *)
Definition sample_frame : DataFrame :=
  mkDF [0; 1; 2]%nat
       [ ("Market Score", [1; 2; 3]);
         ("Vacancy Rate", [5; 5; 5]);
         ("Rent-to-Price Ratio", [1; 3; 2]);
         ("Total_Cash_Required", [10; 20; 30]) ].

(** A scheme with one weight whose column [sample_frame] lacks. *)
Definition sample_weights : dict Q :=
  [ ("Market Score", 1 # 2); ("Occupancy", 1 # 4); ("Vacancy Rate", 1 # 4) ].

(** The sidebar as first rendered: theme mode, the "Balanced" preset, no
    slider moved. *)
Definition default_widgets : Widgets :=
  mkWidgets HighLevelThemes "Balanced" (fun _ dflt => dflt).

(** The sidebar defaults of lines 14-23. *)
Definition default_assumptions : Assumptions :=
  mkAssumptions (7 # 100) 30 (20 # 100) (30 # 100) (40 # 100) 100000 true.

(** Three markets with the raw columns the Financial Model reads. *)
Definition priced_frame : DataFrame :=
  mkDF [0; 1; 2]%nat
       [ (price_col, [100000; 250000; 400000]);
         ("Annual Revenue", [30000; 48000; 60000]);
         ("2 Bed SFR Median Rent", [1200; 1800; 2500]) ].

(** The default assumptions with a capital ceiling of one dollar. *)
Definition one_dollar_ceiling : Assumptions :=
  mkAssumptions (7 # 100) 30 (20 # 100) (30 # 100) (40 # 100) 1 true.

(** ** Results table and comparison (lines 145-168) *)

(** The two text columns of the sheet, "Market Name" and "State", are not
    columns of a [DataFrame] here: a row keeps its label through
    filtering and sorting, so the market name of a row is a function of
    its label, taken as a parameter [name] below.  The sheet is assumed
    to have both text columns. *)

(** [df.head(n)] *)
Definition head (n : nat) (df : DataFrame) : DataFrame :=
  mkDF (firstn n (index df))
       (map (fun c => (fst c, firstn n (snd c))) (columns df)).

(** [df[names]] for a list of names: the listed columns in the listed
    order.  pandas raises a [KeyError] when a name is missing, whose
    message lists every missing name; the model names the first. *)
Fixpoint pick_columns (names : list string) (df : DataFrame)
  : result (list (string * Series)) :=
  match names with
  | [] => Ok []
  | n :: rest =>
      match lookup n (columns df) with
      | Some s => cols <- pick_columns rest df ;; Ok ((n, s) :: cols)
      | None => Raise (KeyError n)
      end
  end.

(** line 146: the numeric part of the table that is shown. *)
Definition results_table (metrics : dict Q) (top_n : nat) (sorted_df : DataFrame)
  : result DataFrame :=
  cols <- pick_columns ("Master Score" :: map fst metrics) sorted_df ;;
  Ok (head top_n (mkDF (index sorted_df) cols)).

(** [Series.unique()]: the values in order of first appearance. *)
Fixpoint unique (l : list string) : list string :=
  match l with
  | [] => []
  | x :: rest => x :: filter (fun y => negb (String.eqb x y)) (unique rest)
  end.

(** line 151 *)
Definition market_list (name : nat -> string) (sorted_df : DataFrame)
  : list string :=
  unique (map name (index sorted_df)).

(** A row of a frame as a pandas Series: its label and its cells keyed by
    column. *)
Definition record : Type := (nat * dict Q)%type.

(** [df.iloc[pos]] for a position inside the frame. *)
Definition row_at (df : DataFrame) (pos : nat) : record :=
  (nth pos (index df) 0%nat,
   map (fun c => (fst c, nth pos (snd c) 0)) (columns df)).

(** The outcome of [.iloc[0]]: a row, or the [IndexError] that pandas
    raises on a selection without rows. *)
Inductive found : Type :=
| Found (r : record)
| IndexError.

(** lines 160-161: [sorted_df[sorted_df['Market Name'] == m].iloc[0]] *)
Definition market_record (name : nat -> string) (sorted_df : DataFrame)
    (m : string) : found :=
  let selection :=
    filter_rows (map (fun l => String.eqb (name l) m) (index sorted_df))
                sorted_df in
  match index selection with
  | [] => IndexError
  | _ :: _ => Found (row_at selection 0)
  end.

(** [[data[m] for m in keys]] on a row. *)
Fixpoint lookups (data : dict Q) (keys : list string) : result (list Q) :=
  match keys with
  | [] => Ok []
  | m :: rest =>
      v <- dict_get m data ;;
      vs <- lookups data rest ;;
      Ok (v :: vs)
  end.

(** lines 163-167: the metric names and the two markets' values. *)
Definition comp_table (metrics : dict Q) (a_data b_data : record)
  : result (list string * list Q * list Q) :=
  let compare_metrics := "Master Score" :: map fst metrics in
  av <- lookups (snd a_data) compare_metrics ;;
  bv <- lookups (snd b_data) compare_metrics ;;
  Ok (compare_metrics, av, bv).

(** The position of the first [true] of a mask. *)
Fixpoint first_true (mask : list bool) : option nat :=
  match mask with
  | [] => None
  | true :: _ => Some 0%nat
  | false :: rest => option_map S (first_true rest)
  end.

(** The cell of column [key] at position [pos] (0 where there is none). *)
Definition cell_at (df : DataFrame) (key : string) (pos : nat) : Q :=
  match lookup key (columns df) with
  | Some s => nth pos s 0
  | None => 0
  end.

(** ** Views used beyond the claims *)

(** The columns that lines 38-53 add to the sheet, in program order. *)
Definition derived_columns : list string :=
  [ "Est_Mortgage"; "STR_Expenses"; "STR_CashFlow"; "LTR_Expenses";
    "LTR_CashFlow"; "STR_Positive_CF"; "LTR_Positive_CF"; "STR_Yield";
    "Total_Cash_Required" ].

(** The three raw columns that lines 27-53 read. *)
Definition raw_inputs : list string :=
  [ price_col; "Annual Revenue"; "2 Bed SFR Median Rent" ].

(** A sheet that lacks the revenue column. *)
Definition no_revenue_frame : DataFrame :=
  mkDF [0; 1]%nat
       [ (price_col, [100000; 250000]);
         ("2 Bed SFR Median Rent", [1200; 1800]) ].

(** A sheet that lacks the rent column. *)
Definition no_rent_frame : DataFrame :=
  mkDF [0; 1]%nat
       [ (price_col, [100000; 250000]);
         ("Annual Revenue", [30000; 48000]) ].

(** [priced_frame] with its mortgage column already in place. *)
Definition mortgaged_frame : DataFrame :=
  setcol priced_frame "Est_Mortgage" [500; 1300; 2100].

(** The default assumptions with a capital ceiling of $60,000. *)
Definition tight_ceiling : Assumptions :=
  mkAssumptions (7 # 100) 30 (20 # 100) (30 # 100) (40 # 100) 60000 true.

(** [priced_frame] with its cash requirement under the default
    assumptions. *)
Definition costed_frame : DataFrame :=
  setcol priced_frame "Total_Cash_Required" [54000; 90000; 126000].

(** The sidebar in detailed mode with every slider at its default. *)
Definition detailed_widgets : Widgets :=
  mkWidgets DetailedMetrics "Balanced" (fun _ dflt => dflt).

(** The total weight of the metrics of a scheme that are columns of the
    frame. *)
Definition present_weight (df : DataFrame) (metrics : dict Q) : Q :=
  fold_left (fun acc item => acc + snd item)
            (filter (fun item => has_col df (fst item)) metrics)
            0.

(** A scheme with every weight multiplied by [c]. *)
Definition scale_weights (c : Q) (metrics : dict Q) : dict Q :=
  map (fun item => (fst item, c * snd item)) metrics.

(** The weights of a scheme that sit on cost-like metrics. *)
Definition cost_like_part (metrics : dict Q) : dict Q :=
  filter (fun item => is_cost_like (fst item)) metrics.

(** One market with a benefit-like and two cost-like metrics. *)
Definition lone_market : DataFrame :=
  mkDF [4]%nat
       [ ("Market Score", [80]); ("Vacancy Rate", [6]);
         ("Rent-to-Price Ratio", [1 # 100]) ].

(** A scheme over the three metrics of [lone_market]. *)
Definition lone_weights : dict Q :=
  [ ("Market Score", 1 # 2); ("Vacancy Rate", 1 # 5);
    ("Rent-to-Price Ratio", 3 # 10) ].

(** Market names for the labels of the sample frames. *)
Definition sample_names (l : nat) : string :=
  match l with
  | 0%nat => "Austin"
  | 1%nat => "Boise"
  | _ => "Tampa"
  end.

(** A scheme all of whose metrics are columns of [sample_frame]. *)
Definition present_weights : dict Q :=
  [ ("Market Score", 1 # 2); ("Vacancy Rate", 1 # 4);
    ("Rent-to-Price Ratio", 1 # 4) ].

(** A ranked frame with a tie for second place. *)
Definition ranked_frame : DataFrame :=
  mkDF [2; 1; 0]%nat
       [ ("Market Score", [3; 2; 1]); ("Master Score", [9; 5; 5]) ].

(** A scheme over the one metric of [ranked_frame]. *)
Definition one_weight : dict Q := [ ("Market Score", 1 # 2) ].

(** * Properties *)

(** ** Outcomes *)

Lemma bind_ok (A B : Type) (r : result A) (k : A -> result B) (b : B) :
  bind r k = Ok b -> exists a, r = Ok a /\ k a = Ok b.
Proof.
  destruct r as [a| |]; simpl; intros H; try discriminate.
  exists a; split; [reflexivity | exact H].
Qed.

(** ** Columns *)

Lemma lookup_assign_same c s cols : lookup c (assign c s cols) = Some s.
Proof.
  induction cols as [|[k old] rest IH]; simpl.
  - now rewrite String.eqb_refl.
  - destruct (String.eqb k c) eqn:E; simpl; rewrite E; auto.
Qed.

Lemma lookup_assign_other c c' s cols :
  c <> c' -> lookup c' (assign c s cols) = lookup c' cols.
Proof.
  intros Hne.
  induction cols as [|[k old] rest IH]; simpl.
  - destruct (String.eqb c c') eqn:E; [apply String.eqb_eq in E; contradiction | reflexivity].
  - destruct (String.eqb k c) eqn:E; simpl.
    + apply String.eqb_eq in E; subst k.
      destruct (String.eqb c c') eqn:E'; [apply String.eqb_eq in E'; contradiction | reflexivity].
    + now rewrite IH.
Qed.

Lemma getcol_setcol_same df c s : getcol (setcol df c s) c = Ok s.
Proof. unfold getcol, setcol; simpl. now rewrite lookup_assign_same. Qed.

Lemma getcol_setcol_other df c c' s :
  c <> c' -> getcol (setcol df c s) c' = getcol df c'.
Proof. intros H. unfold getcol, setcol; simpl. now rewrite lookup_assign_other. Qed.

Lemma has_col_setcol_same df c s : has_col (setcol df c s) c = true.
Proof. unfold has_col, setcol; simpl. now rewrite lookup_assign_same. Qed.

Lemma has_col_setcol_other df c c' s :
  c <> c' -> has_col (setcol df c s) c' = has_col df c'.
Proof. intros H. unfold has_col, setcol; simpl. now rewrite lookup_assign_other. Qed.

Lemma has_col_getcol df c :
  has_col df c = true -> exists s, getcol df c = Ok s /\ lookup c (columns df) = Some s.
Proof.
  unfold has_col, getcol. destruct (lookup c (columns df)) as [s|]; [|discriminate].
  intros _. now exists s.
Qed.

Lemma lookup_In c cols s : lookup c cols = Some s -> In (c, s) cols.
Proof.
  induction cols as [|[k old] rest IH]; simpl; [discriminate|].
  destruct (String.eqb k c) eqn:E.
  - apply String.eqb_eq in E. intros [= ->]. left. now subst.
  - intros H. right. auto.
Qed.

Lemma wf_lookup df c s :
  wf df -> lookup c (columns df) = Some s -> List.length s = nrows df.
Proof.
  intros Hwf Hl. apply lookup_In in Hl.
  unfold wf in Hwf. rewrite Forall_forall in Hwf. exact (Hwf _ Hl).
Qed.

Lemma assign_Forall (P : string * Series -> Prop) c s cols :
  Forall P cols -> (forall k, P (k, s)) -> Forall P (assign c s cols).
Proof.
  intros HF HP. induction HF as [|[k old] rest Hk Hrest IH]; simpl.
  - constructor; [apply HP | constructor].
  - destruct (String.eqb k c); constructor; auto.
Qed.

Lemma wf_setcol df c s :
  wf df -> List.length s = nrows df -> wf (setcol df c s).
Proof.
  intros Hwf Hlen. unfold wf, setcol, nrows in *; simpl.
  apply assign_Forall; [exact Hwf | intros k; exact Hlen].
Qed.

Lemma nrows_setcol df c s : nrows (setcol df c s) = nrows df.
Proof. reflexivity. Qed.

(** ** The amortisation factor *)

Lemma Qeq_bool_false_iff x y : Qeq_bool x y = false <-> ~ x == y.
Proof.
  split; [apply Qeq_bool_neq|].
  intros H. destruct (Qeq_bool x y) eqn:E; [|reflexivity].
  apply Qeq_bool_iff in E. contradiction.
Qed.

Lemma py_pow_nonzero b n : ~ b == 0 -> py_pow b n = Ok (Qpower b n).
Proof.
  intros Hb. unfold py_pow.
  apply Qeq_bool_false_iff in Hb. rewrite Hb.
  now rewrite andb_false_r.
Qed.

Lemma amort_factor_zero_rate mi n :
  mi == 0 -> amort_factor mi n = Raise ZeroDivisionError.
Proof.
  intros Hmi. unfold amort_factor.
  assert (H1 : 1 + mi == 1) by (rewrite Hmi; ring).
  rewrite py_pow_nonzero by (rewrite H1; discriminate).
  simpl. unfold py_div.
  assert (Hd : Qpower (1 + mi) n - 1 == 0).
  { rewrite H1, Qpower_1. ring. }
  apply Qeq_bool_iff in Hd. now rewrite Hd.
Qed.

Lemma Qpower_above_1_neq_1 b n : 1 < b -> n <> 0%Z -> ~ Qpower b n == 1.
Proof.
  intros Hb Hn. destruct n as [|p|p]; [congruence| |].
  - pose proof (Qpower_1_lt_pos b p Hb). lra.
  - pose proof (Qpower_1_lt_pos b p Hb) as Hp.
    change (Qpower b (Z.neg p)) with (/ Qpower b (Z.pos p)).
    assert (Hinv : / Qpower b (Z.pos p) < / 1).
    { assert (H0 : 0 < Qpower b (Z.pos p)) by lra.
      exact (proj1 (Qinv_lt_contravar 1 _ eq_refl H0) Hp). }
    change (/ 1) with 1 in Hinv. lra.
Qed.

Lemma amort_factor_positive_rate mi n :
  0 < mi -> n <> 0%Z ->
  amort_factor mi n
  = Ok ((mi * Qpower (1 + mi) n) / (Qpower (1 + mi) n - 1)).
Proof.
  intros Hmi Hn.
  assert (Hb : 1 < 1 + mi) by lra.
  pose proof (Qpower_above_1_neq_1 _ _ Hb Hn) as Hp.
  unfold amort_factor.
  rewrite py_pow_nonzero by lra.
  simpl. unfold py_div.
  assert (Hd : ~ Qpower (1 + mi) n - 1 == 0) by lra.
  apply Qeq_bool_false_iff in Hd. now rewrite Hd.
Qed.

Lemma monthly_mortgage_positive_rate a price :
  0 < interest_rate a -> loan_term_years a <> 0%Z ->
  monthly_mortgage a price
  = Ok (map (fun l => l * ((monthly_interest a
                             * Qpower (1 + monthly_interest a) (num_payments a))
                            / (Qpower (1 + monthly_interest a) (num_payments a) - 1)))
            (map (fun p => p * (1 - down_payment_pct a)) price)).
Proof.
  intros Hr Ht. unfold monthly_mortgage.
  assert (Hmi : 0 < monthly_interest a).
  { unfold monthly_interest. apply Qlt_shift_div_l; [reflexivity | lra]. }
  assert (Hn : num_payments a <> 0%Z) by (unfold num_payments; lia).
  now rewrite (amort_factor_positive_rate _ _ Hmi Hn).
Qed.

(** ** Claims about the Financial Model *)

(** C1 (as the code has it).  With a zero interest rate the Financial Model
    has no special case: whatever the prices and the term, the denominator
    [(1+0)^n - 1] of the amortisation factor is zero and the computation
    stops with [ZeroDivisionError], in [monthly_mortgage] and hence in the
    whole of lines 27-53; no payment column is produced. *)
Theorem zero_rate_raises (a : Assumptions) (price : Series) :
  interest_rate a == 0 ->
  monthly_mortgage a price = Raise ZeroDivisionError /\
  (forall df : DataFrame,
      getcol df price_col = Ok price ->
      financial_model a df = Raise ZeroDivisionError).
Proof.
  intros Hr.
  assert (Hmi : monthly_interest a == 0).
  { unfold monthly_interest. rewrite Hr. reflexivity. }
  assert (Hmm : monthly_mortgage a price = Raise ZeroDivisionError).
  { unfold monthly_mortgage. now rewrite amort_factor_zero_rate. }
  split; [exact Hmm|].
  intros df Hp. unfold financial_model. rewrite Hp. simpl. now rewrite Hmm.
Qed.

Lemma zero_rate_raises_witness :
  monthly_mortgage zero_rate_loan [120000] = Raise ZeroDivisionError /\
  (forall df : DataFrame,
      getcol df price_col = Ok [120000] ->
      financial_model zero_rate_loan df = Raise ZeroDivisionError).
Proof. apply (zero_rate_raises zero_rate_loan [120000]). reflexivity. Defined.

(** C1 (as the spec states it) fails: the $120,000 loan at 0% over 10 years
    does not get a payment of $1,000.00, nor any payment at all. *)
Lemma zero_rate_no_linear_payment :
  ~ (exists pay : Series,
        monthly_mortgage zero_rate_loan [120000] = Ok pay /\
        Forall2 Qeq pay [1000]).
Proof.
  intros [pay [H _]]. vm_compute in H. discriminate H.
Qed.

(** C2.  For a positive annual rate (and a term other than 0) every market's
    monthly payment is [loan_amount * (r*(1+r)^n) / ((1+r)^n - 1)] with
    [loan_amount = price*(1 - down payment)], [r = rate/12] and
    [n = years*12], and it is the column stored as [Est_Mortgage]; a
    $100,000 loan at 6% over 30 years pays within one cent of $599.55 a
    month. *)
Theorem amortized_payment :
  (forall (a : Assumptions) (price : Series),
      0 < interest_rate a -> loan_term_years a <> 0%Z ->
      exists pay : Series,
        monthly_mortgage a price = Ok pay /\
        Forall2 (fun m p =>
                   let loan_amount := p * (1 - down_payment_pct a) in
                   let r := interest_rate a / 12 in
                   let n := (loan_term_years a * 12)%Z in
                   m == loan_amount * (r * Qpower (1 + r) n)
                        / (Qpower (1 + r) n - 1))
                pay price /\
        (forall df out : DataFrame,
            getcol df price_col = Ok price ->
            financial_model a df = Ok out ->
            getcol out "Est_Mortgage" = Ok pay)) /\
  (exists m : Q,
      monthly_mortgage six_percent_loan [100000] = Ok [m] /\
      Qabs (m - (59955 # 100)) <= 1 # 100).
Proof.
  split.
  - intros a price Hr Ht.
    eexists. split; [apply monthly_mortgage_positive_rate; assumption|].
    split.
    + fold (monthly_interest a). fold (num_payments a).
      induction price as [|p rest IH]; simpl; constructor; [|exact IH].
      unfold Qdiv. ring.
    + intros df out Hp Hfm. unfold financial_model in Hfm.
      rewrite Hp in Hfm. simpl in Hfm.
      rewrite monthly_mortgage_positive_rate in Hfm by assumption.
      simpl in Hfm.
      apply bind_ok in Hfm. destruct Hfm as [d1 [Hcf Hfm]].
      apply bind_ok in Hfm. destruct Hfm as [rev [_ Hfm]].
      apply bind_ok in Hfm. destruct Hfm as [yl [_ Hfm]].
      unfold total_cash_required in Hfm.
      apply bind_ok in Hfm. destruct Hfm as [pc [_ Hfm]].
      injection Hfm as <-.
      unfold cash_flows in Hcf.
      repeat (apply bind_ok in Hcf; destruct Hcf as [? [_ Hcf]]).
      injection Hcf as <-.
      rewrite !getcol_setcol_other by discriminate.
      apply getcol_setcol_same.
  - eexists. split; [vm_compute; reflexivity|].
    apply Qle_bool_iff. vm_compute. reflexivity.
Qed.

Lemma amortized_payment_witness :
  exists pay : Series,
    monthly_mortgage six_percent_loan [100000; 250000] = Ok pay /\
    Forall2 (fun m p =>
               let loan_amount := p * (1 - down_payment_pct six_percent_loan) in
               let r := interest_rate six_percent_loan / 12 in
               let n := (loan_term_years six_percent_loan * 12)%Z in
               m == loan_amount * (r * Qpower (1 + r) n)
                    / (Qpower (1 + r) n - 1))
            pay [100000; 250000] /\
    (forall df out : DataFrame,
        getcol df price_col = Ok [100000; 250000] ->
        financial_model six_percent_loan df = Ok out ->
        getcol out "Est_Mortgage" = Ok pay).
Proof.
  apply (proj1 amortized_payment six_percent_loan [100000; 250000]).
  - reflexivity.
  - discriminate.
Defined.

(** ** Extremes of a column *)

Lemma fold_min_spec (l : Series) (x : Q) :
  fold_left Qmin l x <= x /\
  Forall (fun y => fold_left Qmin l x <= y) l /\
  (fold_left Qmin l x == x \/ Exists (fun y => y == fold_left Qmin l x) l).
Proof.
  revert x. induction l as [|y l IH]; intros x; simpl.
  - repeat split; [apply Qle_refl | constructor | left; reflexivity].
  - destruct (IH (Qmin x y)) as [Hle [Hall Hex]].
    pose proof (Q.le_min_l x y) as Hl. pose proof (Q.le_min_r x y) as Hr.
    repeat split.
    + eapply Qle_trans; eassumption.
    + constructor; [eapply Qle_trans; eassumption | exact Hall].
    + destruct Hex as [Heq | Hex]; [|right; now constructor 2].
      destruct (Q.min_spec x y) as [[_ Hm] | [_ Hm]].
      * left. now rewrite Heq.
      * right. constructor 1. now rewrite Heq.
Qed.

Lemma fold_max_spec (l : Series) (x : Q) :
  x <= fold_left Qmax l x /\
  Forall (fun y => y <= fold_left Qmax l x) l /\
  (fold_left Qmax l x == x \/ Exists (fun y => y == fold_left Qmax l x) l).
Proof.
  revert x. induction l as [|y l IH]; intros x; simpl.
  - repeat split; [apply Qle_refl | constructor | left; reflexivity].
  - destruct (IH (Qmax x y)) as [Hle [Hall Hex]].
    pose proof (Q.le_max_l x y) as Hl. pose proof (Q.le_max_r x y) as Hr.
    repeat split.
    + eapply Qle_trans; eassumption.
    + constructor; [eapply Qle_trans; eassumption | exact Hall].
    + destruct Hex as [Heq | Hex]; [|right; now constructor 2].
      destruct (Q.max_spec x y) as [[_ Hm] | [_ Hm]].
      * right. constructor 1. now rewrite Heq.
      * left. now rewrite Heq.
Qed.

Lemma series_min_is_min s m : series_min s = Some m -> is_min s m.
Proof.
  destruct s as [|x rest]; simpl; [discriminate|].
  intros [= <-]. destruct (fold_min_spec rest x) as [Hle [Hall Hex]].
  split.
  - destruct Hex as [Heq | Hex]; [constructor 1; now symmetry | now constructor 2].
  - constructor; assumption.
Qed.

Lemma series_max_is_max s m : series_max s = Some m -> is_max s m.
Proof.
  destruct s as [|x rest]; simpl; [discriminate|].
  intros [= <-]. destruct (fold_max_spec rest x) as [Hle [Hall Hex]].
  split.
  - destruct Hex as [Heq | Hex]; [constructor 1; now symmetry | now constructor 2].
  - constructor; assumption.
Qed.

Lemma is_min_unique s m m' : is_min s m -> is_min s m' -> m == m'.
Proof.
  intros [Hex Hall] [Hex' Hall'].
  rewrite Exists_exists in Hex, Hex'. rewrite Forall_forall in Hall, Hall'.
  destruct Hex as [x [Hx Hxm]]. destruct Hex' as [x' [Hx' Hxm']].
  apply Qle_antisym.
  - rewrite <- Hxm'. auto.
  - rewrite <- Hxm. auto.
Qed.

Lemma is_max_unique s m m' : is_max s m -> is_max s m' -> m == m'.
Proof.
  intros [Hex Hall] [Hex' Hall'].
  rewrite Exists_exists in Hex, Hex'. rewrite Forall_forall in Hall, Hall'.
  destruct Hex as [x [Hx Hxm]]. destruct Hex' as [x' [Hx' Hxm']].
  apply Qle_antisym.
  - rewrite <- Hxm. auto.
  - rewrite <- Hxm'. auto.
Qed.

Lemma series_extremes_nonempty s :
  s <> [] -> exists mx mn, series_max s = Some mx /\ series_min s = Some mn.
Proof.
  destruct s as [|x rest]; [congruence|]. intros _. simpl. eauto.
Qed.

Lemma series_extremes_empty s :
  series_max s = None \/ series_min s = None -> s = [].
Proof. destruct s; simpl; [reflexivity | intros [H|H]; discriminate]. Qed.

(** ** Normalisation *)

(** The outcome of line 134 on a non-empty column, case by case. *)
Lemma col_norm_cases s mx mn :
  series_max s = Some mx -> series_min s = Some mn ->
  (mx == mn -> col_norm s = Ok (Scalar 0)) /\
  (~ mx == mn ->
   col_norm s = Ok (Ser (map (fun v => v / (mx - mn)) (map (fun v => v - mn) s)))).
Proof.
  intros Hmx Hmn. unfold col_norm. rewrite Hmx, Hmn. split; intros H.
  - apply Qeq_bool_iff in H. now rewrite H.
  - assert (Hd : ~ mx - mn == 0) by (intros Hz; apply H; lra).
    apply Qeq_bool_false_iff in H. rewrite H. simpl.
    unfold div_by_number.
    destruct s as [|x rest]; [discriminate|]. simpl map at 1.
    apply Qeq_bool_false_iff in Hd. now rewrite Hd.
Qed.

(** Line 134 never fails and never divides by zero. *)
Lemma col_norm_total s : exists v, col_norm s = Ok v.
Proof.
  destruct s as [|x rest] eqn:Es; [now exists (Ser [])|]. rewrite <- Es.
  destruct (series_extremes_nonempty s) as [mx [mn [Hmx Hmn]]]; [now rewrite Es|].
  destruct (col_norm_cases s mx mn Hmx Hmn) as [Hd Hn].
  destruct (Qeq_dec mx mn) as [E|E]; eauto.
Qed.

Lemma normalized_length s : List.length (normalized s) = List.length s.
Proof.
  unfold normalized.
  destruct s as [|x rest] eqn:Es; [reflexivity|]. rewrite <- Es.
  destruct (series_extremes_nonempty s) as [mx [mn [Hmx Hmn]]]; [now rewrite Es|].
  destruct (col_norm_cases s mx mn Hmx Hmn) as [Hd Hn].
  destruct (Qeq_dec mx mn) as [E|E].
  - rewrite (Hd E). simpl. apply repeat_length.
  - rewrite (Hn E). simpl. now rewrite !length_map.
Qed.

Lemma unit_interval_cell v mn mx :
  mn <= v -> v <= mx -> ~ mx == mn ->
  0 <= (v - mn) / (mx - mn) <= 1 /\
  (v == mx -> (v - mn) / (mx - mn) == 1) /\
  (v == mn -> (v - mn) / (mx - mn) == 0).
Proof.
  intros Hlo Hhi Hne.
  assert (Hpos : 0 < mx - mn).
  { destruct (Qlt_le_dec mn mx) as [Hlt|Hge]; [lra|].
    exfalso. apply Hne. lra. }
  repeat split.
  - apply Qle_shift_div_l; [exact Hpos | lra].
  - apply Qle_shift_div_r; [exact Hpos | lra].
  - intros E. rewrite E. field. lra.
  - intros E. rewrite E. field. lra.
Qed.

Lemma Forall2_map_self (R : Q -> Q -> Prop) (f : Q -> Q) (s : Series) :
  (forall v, In v s -> R (f v) v) -> Forall2 R (map f s) s.
Proof.
  induction s as [|x rest IH]; intros H; simpl; constructor.
  - apply H. now left.
  - apply IH. intros v Hv. apply H. now right.
Qed.

(** The stored normalised column of a non-degenerate column, cell by cell. *)
Lemma normalized_nondegenerate s mn mx :
  is_min s mn -> is_max s mx -> ~ mx == mn ->
  Forall2 (fun n v => n == (v - mn) / (mx - mn)) (normalized s) s.
Proof.
  intros Hmin Hmax Hne.
  assert (Hs : s <> []).
  { destruct Hmin as [Hex _]. intros ->. inversion Hex. }
  destruct (series_extremes_nonempty s Hs) as [mx' [mn' [Hmx Hmn]]].
  pose proof (is_max_unique _ _ _ (series_max_is_max _ _ Hmx) Hmax) as Emx.
  pose proof (is_min_unique _ _ _ (series_min_is_min _ _ Hmn) Hmin) as Emn.
  destruct (col_norm_cases s mx' mn' Hmx Hmn) as [_ Hn].
  unfold normalized. rewrite Hn by (rewrite Emx, Emn; exact Hne).
  simpl. rewrite map_map. apply Forall2_map_self.
  intros v _. now rewrite Emx, Emn.
Qed.

Lemma normalized_degenerate s mn mx :
  is_min s mn -> is_max s mx -> mx == mn ->
  col_norm s = Ok (Scalar 0) /\ normalized s = repeat 0 (List.length s).
Proof.
  intros Hmin Hmax He.
  assert (Hs : s <> []).
  { destruct Hmin as [Hex _]. intros ->. inversion Hex. }
  destruct (series_extremes_nonempty s Hs) as [mx' [mn' [Hmx Hmn]]].
  pose proof (is_max_unique _ _ _ (series_max_is_max _ _ Hmx) Hmax) as Emx.
  pose proof (is_min_unique _ _ _ (series_min_is_min _ _ Hmn) Hmin) as Emn.
  destruct (col_norm_cases s mx' mn' Hmx Hmn) as [Hd _].
  assert (E : col_norm s = Ok (Scalar 0)) by (apply Hd; now rewrite Emx, Emn).
  split; [exact E|]. unfold normalized. now rewrite E.
Qed.

(** ** Claims about normalisation *)

(** C3.  On a non-empty column with least value [mn] and greatest value
    [mx], line 134 completes (nothing is divided by zero); if [mx] equals
    [mn] the normalised value is 0 for every market; otherwise each
    market's normalised value is [(value - mn) / (mx - mn)], lies in
    [0,1], is 1 where the value is the maximum and 0 where it is the
    minimum. *)
Theorem normalization_bounds (s : Series) (mn mx : Q) :
  s <> [] -> is_min s mn -> is_max s mx ->
  (exists v, col_norm s = Ok v) /\
  (mx == mn ->
   col_norm s = Ok (Scalar 0) /\ normalized s = repeat 0 (List.length s)) /\
  (~ mx == mn ->
   Forall2 (fun n v =>
              n == (v - mn) / (mx - mn) /\
              0 <= n <= 1 /\
              (v == mx -> n == 1) /\
              (v == mn -> n == 0))
           (normalized s) s).
Proof.
  intros Hs Hmin Hmax. split; [apply col_norm_total|]. split.
  - apply normalized_degenerate; assumption.
  - intros Hne.
    pose proof (normalized_nondegenerate s mn mx Hmin Hmax Hne) as HF.
    destruct Hmin as [_ Hlo]. destruct Hmax as [_ Hhi].
    rewrite Forall_forall in Hlo, Hhi.
    assert (Hin : forall v, In v s -> mn <= v <= mx) by (intros v Hv; split; auto).
    clear Hlo Hhi Hs.
    induction HF as [|n v ns vs Hn HF IH]; constructor.
    + destruct (unit_interval_cell v mn mx) as [Hb [H1 H0]];
        [apply Hin; now left | apply Hin; now left | exact Hne |].
      split; [exact Hn|]. rewrite Hn. repeat split; try apply Hb; assumption.
    + apply IH. intros w Hw. apply Hin. now right.
Qed.

Lemma normalization_bounds_witness :
  (exists v, col_norm [1; 3; 2] = Ok v) /\
  (3 == 1 ->
   col_norm [1; 3; 2] = Ok (Scalar 0) /\ normalized [1; 3; 2] = repeat 0 3%nat) /\
  (~ 3 == 1 ->
   Forall2 (fun n v =>
              n == (v - 1) / (3 - 1) /\
              0 <= n <= 1 /\
              (v == 3 -> n == 1) /\
              (v == 1 -> n == 0))
           (normalized [1; 3; 2]) [1; 3; 2]).
Proof.
  apply (normalization_bounds [1; 3; 2] 1 3).
  - discriminate.
  - split.
    + constructor 1. reflexivity.
    + repeat constructor; discriminate.
  - split.
    + constructor 2. constructor 1. reflexivity.
    + repeat constructor; discriminate.
Defined.

(** ** One turn of the scoring loop *)

Lemma nth_repeat_lt (q : Q) (n i : nat) : (i < n)%nat -> nth i (repeat q n) 0 = q.
Proof.
  revert i. induction n as [|n IH]; intros i Hi; [lia|].
  destruct i as [|i]; simpl; [reflexivity | apply IH; lia].
Qed.

Lemma nth_map_lt (f : Q -> Q) (s : Series) (i : nat) :
  (i < List.length s)%nat -> nth i (map f s) 0 = f (nth i s 0).
Proof.
  intros Hi. rewrite (nth_indep _ 0 (f 0)) by (now rewrite length_map).
  apply map_nth.
Qed.

Lemma nth_map2_lt (f : Q -> Q -> Q) (a b : Series) (i : nat) :
  (i < List.length a)%nat -> (i < List.length b)%nat ->
  nth i (map2 f a b) 0 = f (nth i a 0) (nth i b 0).
Proof.
  revert b i. induction a as [|x a IH]; intros b i Ha Hb; simpl in *; [lia|].
  destruct b as [|y b]; simpl in *; [lia|].
  destruct i as [|i]; [reflexivity | apply IH; lia].
Qed.

Lemma map2_length (f : Q -> Q -> Q) (a b : Series) :
  List.length a = List.length b -> List.length (map2 f a b) = List.length a.
Proof.
  revert b. induction a as [|x a IH]; intros [|y b] H; simpl in *; try lia.
  f_equal. apply IH. lia.
Qed.

Lemma Forall2_nth (R : Q -> Q -> Prop) (l1 l2 : Series) (i : nat) :
  Forall2 R l1 l2 -> (i < List.length l2)%nat -> R (nth i l1 0) (nth i l2 0).
Proof.
  intros HF. revert i. induction HF as [|x y l1 l2 Hxy HF IH]; intros i Hi; simpl in *; [lia|].
  destruct i as [|i]; [exact Hxy | apply IH; lia].
Qed.

Lemma cell_broadcast n v i :
  (i < n)%nat -> nth i (broadcast n v) 0 = cell v i.
Proof.
  intros Hi. destruct v as [q|s]; simpl; [now apply nth_repeat_lt | reflexivity].
Qed.

(** [score += t], row by row. *)
Lemma add_series_cell df score t i :
  score_shape df score -> List.length t = nrows df -> (i < nrows df)%nat ->
  cell (add_series score t) i == cell score i + nth i t 0.
Proof.
  intros Hs Ht Hi. destruct score as [q|s]; simpl in *.
  - rewrite nth_map_lt by lia. reflexivity.
  - rewrite nth_map2_lt by lia. reflexivity.
Qed.

Lemma add_series_shape df score t :
  score_shape df score -> List.length t = nrows df ->
  score_shape df (add_series score t).
Proof.
  intros Hs Ht. destruct score as [q|s]; simpl in *.
  - now rewrite length_map.
  - rewrite map2_length; lia.
Qed.

Lemma turn_term_length col w c : List.length (turn_term col w c) = List.length c.
Proof.
  unfold turn_term. destruct (is_cost_like col); now rewrite length_map, normalized_length.
Qed.

Lemma turn_term_cell col w c i :
  (i < List.length c)%nat ->
  nth i (turn_term col w c) 0
  = w * (if is_cost_like col then 1 - nth i (normalized c) 0
         else nth i (normalized c) 0).
Proof.
  intros Hi. unfold turn_term.
  destruct (is_cost_like col); rewrite nth_map_lt by (now rewrite normalized_length);
    reflexivity.
Qed.

(** A weighted column that is present: the normalised column is stored
    and the term is added. *)
Lemma score_step_present df score col w c :
  wf df -> lookup col (columns df) = Some c ->
  score_step (df, score) (col, w)
  = Ok (setcol df (col ++ "_norm") (normalized c),
        add_series score (turn_term col w c)).
Proof.
  intros Hwf Hl.
  assert (Hh : has_col df col = true) by (unfold has_col; now rewrite Hl).
  assert (Hg : getcol df col = Ok c) by (unfold getcol; now rewrite Hl).
  pose proof (wf_lookup _ _ _ Hwf Hl) as Hlen.
  destruct (col_norm_total c) as [v Hv].
  assert (Hn : normalized c = broadcast (nrows df) v).
  { unfold normalized. now rewrite Hv, Hlen. }
  unfold score_step. rewrite Hh, Hg. simpl. rewrite Hv. simpl.
  unfold setval. rewrite <- Hn, getcol_setcol_same. simpl.
  unfold turn_term. destruct (is_cost_like col); reflexivity.
Qed.

(** A weight whose column is absent: nothing happens. *)
Lemma score_step_absent df score col w :
  has_col df col = false -> score_step (df, score) (col, w) = Ok (df, score).
Proof. intros H. unfold score_step. now rewrite H. Qed.

Lemma getcol_lookup df c s : getcol df c = Ok s -> lookup c (columns df) = Some s.
Proof.
  unfold getcol. destruct (lookup c (columns df)); [now intros [= ->] | discriminate].
Qed.

Lemma is_cost_like_iff col :
  is_cost_like col = true <-> str_in "Price" col = true \/ str_in "Vacancy" col = true.
Proof. unfold is_cost_like. apply orb_true_iff. Qed.

(** What one turn does to the score of row [i], for a column that is
    present. *)
Lemma score_step_cell df score col w c i :
  wf df -> lookup col (columns df) = Some c -> score_shape df score ->
  (i < nrows df)%nat ->
  cell (add_series score (turn_term col w c)) i
  == cell score i
     + w * (if is_cost_like col then 1 - nth i (normalized c) 0
            else nth i (normalized c) 0).
Proof.
  intros Hwf Hl Hs Hi.
  pose proof (wf_lookup _ _ _ Hwf Hl) as Hlen.
  rewrite (add_series_cell df) by (try rewrite turn_term_length; assumption).
  rewrite turn_term_cell by lia. reflexivity.
Qed.

(** ** Claims about directionality *)

(** C4.  One turn of the loop on a weighted metric that is a column: the
    normalised column is stored, and each market's score grows by
    [weight * (1 - normalised)] when the name contains "Price" or
    "Vacancy" and by [weight * normalised] otherwise.  Hence, for a
    "Price"-named metric on a non-degenerate column, a market with the
    lowest raw value has directional value 1, gets [weight * 1], and no
    market has a higher directional value. *)
Theorem directional_contribution
    (df : DataFrame) (score : value) (col : string) (w : Q) (c : Series) :
  wf df -> getcol df col = Ok c -> score_shape df score ->
  exists (df' : DataFrame) (score' : value),
    score_step (df, score) (col, w) = Ok (df', score') /\
    getcol df' (col ++ "_norm") = Ok (normalized c) /\
    (forall i, (i < nrows df)%nat ->
       (str_in "Price" col = true \/ str_in "Vacancy" col = true ->
        cell score' i == cell score i + w * (1 - nth i (normalized c) 0)) /\
       (str_in "Price" col = false /\ str_in "Vacancy" col = false ->
        cell score' i == cell score i + w * nth i (normalized c) 0)) /\
    (str_in "Price" col = true ->
     forall mn mx, is_min c mn -> is_max c mx -> ~ mx == mn ->
     forall i, (i < nrows df)%nat -> nth i c 0 == mn ->
       1 - nth i (normalized c) 0 == 1 /\
       cell score' i == cell score i + w * 1 /\
       (forall j, (j < nrows df)%nat ->
          1 - nth j (normalized c) 0 <= 1 - nth i (normalized c) 0)).
Proof.
  intros Hwf Hg Hs. apply getcol_lookup in Hg.
  pose proof (wf_lookup _ _ _ Hwf Hg) as Hlen.
  eexists. eexists. split; [apply score_step_present; eassumption|].
  split; [apply getcol_setcol_same|].
  split.
  - intros i Hi. split.
    + intros Hc. apply is_cost_like_iff in Hc.
      rewrite (score_step_cell df) by assumption. now rewrite Hc.
    + intros [Hp Hv].
      rewrite (score_step_cell df) by assumption.
      unfold is_cost_like. now rewrite Hp, Hv.
  - intros Hp mn mx Hmin Hmax Hne i Hi Hci.
    assert (Hc : is_cost_like col = true) by (apply is_cost_like_iff; now left).
    pose proof (normalized_nondegenerate c mn mx Hmin Hmax Hne) as HF.
    assert (Hcell : forall k, (k < nrows df)%nat ->
              nth k (normalized c) 0 == (nth k c 0 - mn) / (mx - mn)).
    { intros k Hk. apply (Forall2_nth _ _ _ k HF). lia. }
    assert (Hrange : forall k, (k < nrows df)%nat -> mn <= nth k c 0 <= mx).
    { intros k Hk. destruct Hmin as [_ Hlo]. destruct Hmax as [_ Hhi].
      rewrite Forall_forall in Hlo, Hhi.
      assert (Hin : In (nth k c 0) c) by (apply nth_In; lia).
      split; auto. }
    assert (Hni : nth i (normalized c) 0 == 0).
    { rewrite Hcell by assumption.
      destruct (Hrange i Hi) as [Hlo Hhi].
      apply (unit_interval_cell _ _ _ Hlo Hhi Hne). exact Hci. }
    split; [rewrite Hni; ring|]. split.
    + rewrite (score_step_cell df) by assumption. rewrite Hc, Hni. ring.
    + intros j Hj. rewrite Hni, (Hcell j Hj).
      destruct (Hrange j Hj) as [Hlo Hhi].
      destruct (unit_interval_cell _ _ _ Hlo Hhi Hne) as [[H0 _] _]. lra.
Qed.

Lemma directional_contribution_witness :
  exists (df' : DataFrame) (score' : value),
    score_step (price_frame, Scalar 0) ("Median Price", 1 # 2) = Ok (df', score') /\
    getcol df' ("Median Price" ++ "_norm") = Ok (normalized [300; 100; 200]) /\
    (forall i, (i < nrows price_frame)%nat ->
       (str_in "Price" "Median Price" = true \/ str_in "Vacancy" "Median Price" = true ->
        cell score' i
        == cell (Scalar 0) i + (1 # 2) * (1 - nth i (normalized [300; 100; 200]) 0)) /\
       (str_in "Price" "Median Price" = false /\ str_in "Vacancy" "Median Price" = false ->
        cell score' i
        == cell (Scalar 0) i + (1 # 2) * nth i (normalized [300; 100; 200]) 0)) /\
    (str_in "Price" "Median Price" = true ->
     forall mn mx, is_min [300; 100; 200] mn -> is_max [300; 100; 200] mx ->
     ~ mx == mn ->
     forall i, (i < nrows price_frame)%nat -> nth i [300; 100; 200] 0 == mn ->
       1 - nth i (normalized [300; 100; 200]) 0 == 1 /\
       cell score' i == cell (Scalar 0) i + (1 # 2) * 1 /\
       (forall j, (j < nrows price_frame)%nat ->
          1 - nth j (normalized [300; 100; 200]) 0
          <= 1 - nth i (normalized [300; 100; 200]) 0)).
Proof.
  apply (directional_contribution price_frame (Scalar 0) "Median Price" (1 # 2)
           [300; 100; 200]).
  - repeat constructor.
  - reflexivity.
  - exact I.
Defined.

(** ** The scoring loop *)

Lemma score_shape_nrows df df' score :
  nrows df = nrows df' -> score_shape df score -> score_shape df' score.
Proof. intros H. destruct score; simpl; [auto | now rewrite H]. Qed.

Lemma fold_sum_compat (g : string -> Q) (l : dict Q) (a a' : Q) :
  a == a' ->
  fold_left (fun acc item => acc + snd item * g (fst item)) l a
  == fold_left (fun acc item => acc + snd item * g (fst item)) l a'.
Proof.
  revert a a'. induction l as [|it l IH]; intros a a' H; simpl; [exact H|].
  apply IH. now rewrite H.
Qed.

Lemma score_loop_cons item rest st :
  score_loop (item :: rest) st
  = (st' <- score_step st item ;; score_loop rest st').
Proof. reflexivity. Qed.

(** The loop over any list of weights whose keys come from a set [K] of
    names none of which is another's [_norm] name: it completes, it leaves
    the raw columns as they were, and row by row the score has grown by
    the weighted directional values of the columns that are present. *)
Lemma score_loop_spec (df0 : DataFrame) (K : list string) :
  (forall k k', In k K -> In k' K -> k' <> k ++ "_norm") ->
  forall (items : dict Q) (dfk : DataFrame) (score : value),
    (forall it, In it items -> In (fst it) K) ->
    wf dfk -> nrows dfk = nrows df0 ->
    (forall k, In k K -> lookup k (columns dfk) = lookup k (columns df0)) ->
    score_shape df0 score ->
    exists (dfk' : DataFrame) (score' : value),
      score_loop items (dfk, score) = Ok (dfk', score') /\
      wf dfk' /\ nrows dfk' = nrows df0 /\
      score_shape df0 score' /\
      forall i, (i < nrows df0)%nat ->
        cell score' i
        == fold_left (fun acc item =>
                        acc + snd item * directional_norm df0 (fst item) i)
                     (filter (fun item => has_col df0 (fst item)) items)
                     (cell score i).
Proof.
  intros Hfresh items.
  induction items as [|[col w] rest IH]; intros dfk score HK Hwf Hn Hraw Hs.
  - exists dfk, score. simpl. repeat split; auto; intros; reflexivity.
  - assert (HcolK : In col K) by (apply (HK (col, w)); now left).
    assert (HK' : forall it, In it rest -> In (fst it) K)
      by (intros it Hit; apply HK; now right).
    pose proof (Hraw col HcolK) as Hcol.
    rewrite score_loop_cons. simpl filter. unfold has_col at 1.
    destruct (lookup col (columns df0)) as [c|] eqn:Hl0.
    + rewrite (score_step_present dfk score col w c Hwf Hcol). simpl bind.
      pose proof (wf_lookup _ _ _ Hwf Hcol) as Hlen.
      destruct (IH (setcol dfk (col ++ "_norm") (normalized c))
                   (add_series score (turn_term col w c)))
        as [dfk' [score' [Hrun [Hwf' [Hn' [Hs' Hcell]]]]]].
      * exact HK'.
      * apply wf_setcol; [exact Hwf | now rewrite normalized_length].
      * exact Hn.
      * intros k Hk. unfold setcol; simpl.
        rewrite lookup_assign_other; [now apply Hraw|].
        intros E. exact (Hfresh col k HcolK Hk (eq_sym E)).
      * apply (add_series_shape df0); [exact Hs|].
        rewrite turn_term_length. lia.
      * exists dfk', score'. repeat split; auto.
        intros i Hi. rewrite (Hcell i Hi). simpl fold_left.
        apply fold_sum_compat with (g := fun k => directional_norm df0 k i).
        rewrite (score_step_cell dfk) by
          (try apply (score_shape_nrows df0); auto; lia).
        unfold directional_norm. simpl fst. simpl snd. rewrite Hl0. reflexivity.
    + rewrite score_step_absent by (unfold has_col; now rewrite Hcol).
      simpl bind. apply IH; assumption.
Qed.

(** No recognised metric is the [_norm] name of another. *)
Lemma all_metrics_fresh k k' :
  In k all_metrics -> In k' all_metrics -> k' <> k ++ "_norm".
Proof.
  intros Hk Hk'.
  assert (H : forallb (fun a => forallb (fun b => negb (String.eqb b (a ++ "_norm")))
                                   all_metrics) all_metrics = true)
    by (vm_compute; reflexivity).
  rewrite forallb_forall in H. specialize (H k Hk).
  rewrite forallb_forall in H. specialize (H k' Hk').
  apply negb_true_iff in H. now apply String.eqb_neq in H.
Qed.

(** ** Claims about the composite score *)

(** C5.  For every weighting scheme over recognised metrics and every
    frame, lines 131-141 complete without error, and each market's Master
    Score is the sum, accumulated from zero, of
    [weight * directional-normalised value] over exactly the metrics of
    the scheme that are columns of the frame; a weight whose column is
    absent is passed over. *)
Theorem master_score_is_weighted_sum (metrics : dict Q) (df : DataFrame) :
  wf df ->
  (forall k, In k (map fst metrics) -> In k all_metrics) ->
  exists (out : DataFrame) (ms : Series),
    master_score metrics df = Ok out /\
    getcol out "Master Score" = Ok ms /\
    List.length ms = nrows df /\
    (forall i, (i < nrows df)%nat -> nth i ms 0 == weighted_sum df metrics i) /\
    (forall col w, has_col df col = false ->
       master_score ((col, w) :: metrics) df = master_score metrics df).
Proof.
  intros Hwf Hkeys.
  destruct (score_loop_spec df all_metrics all_metrics_fresh metrics df (Scalar 0))
    as [dfk [score [Hrun [Hwf' [Hn [Hs Hcell]]]]]]; auto.
  { intros it Hit. apply Hkeys. now apply in_map. }
  { exact I. }
  exists (setval dfk "Master Score" score), (broadcast (nrows dfk) score).
  split; [unfold master_score; rewrite Hrun; reflexivity|].
  split; [apply getcol_setcol_same|].
  split.
  - destruct score as [q|s]; simpl in *; [rewrite repeat_length|]; lia.
  - split.
    + intros i Hi. rewrite cell_broadcast by lia.
      rewrite (Hcell i Hi). reflexivity.
    + intros col w Habs. unfold master_score.
      now rewrite score_loop_cons, score_step_absent.
Qed.

Lemma master_score_is_weighted_sum_witness :
  exists (out : DataFrame) (ms : Series),
    master_score sample_weights sample_frame = Ok out /\
    getcol out "Master Score" = Ok ms /\
    List.length ms = nrows sample_frame /\
    (forall i, (i < nrows sample_frame)%nat ->
       nth i ms 0 == weighted_sum sample_frame sample_weights i) /\
    (forall col w, has_col sample_frame col = false ->
       master_score ((col, w) :: sample_weights) sample_frame
       = master_score sample_weights sample_frame).
Proof.
  apply (master_score_is_weighted_sum sample_weights sample_frame).
  - repeat constructor.
  - simpl. intros k [<-|[<-|[<-|[]]]]; vm_compute; tauto.
Defined.

(** A larger raw value gives a larger normalised value. *)
Lemma normalized_increasing c i j :
  (i < List.length c)%nat -> (j < List.length c)%nat ->
  nth i c 0 < nth j c 0 ->
  nth i (normalized c) 0 < nth j (normalized c) 0.
Proof.
  intros Hi Hj Hlt.
  assert (Hc : c <> []) by (intros ->; simpl in Hi; lia).
  destruct (series_extremes_nonempty c Hc) as [mx [mn [Hmx Hmn]]].
  apply series_max_is_max in Hmx. apply series_min_is_min in Hmn.
  assert (Hlo : mn <= nth i c 0).
  { destruct Hmn as [_ H]. rewrite Forall_forall in H. apply H, nth_In, Hi. }
  assert (Hhi : nth j c 0 <= mx).
  { destruct Hmx as [_ H]. rewrite Forall_forall in H. apply H, nth_In, Hj. }
  assert (Hne : ~ mx == mn) by lra.
  pose proof (normalized_nondegenerate c mn mx Hmn Hmx Hne) as HF.
  rewrite (Forall2_nth _ _ _ i HF Hi), (Forall2_nth _ _ _ j HF Hj).
  unfold Qdiv. apply Qmult_lt_compat_r; [|lra].
  apply Qinv_lt_0_compat. lra.
Qed.

(** C10.  "Rent-to-Price Ratio" is a member of the "LTR Safety Net" group
    and its name contains "Price", so the loop treats it as cost-like: its
    turn adds [weight * (1 - normalised)] to every market's score, and
    under a positive weight a market with a lower ratio gains strictly
    more than one with a higher ratio. *)
Theorem rent_to_price_is_cost_like :
  (exists members,
      dict_get "LTR Safety Net" groups = Ok members /\
      In "Rent-to-Price Ratio" members) /\
  is_cost_like "Rent-to-Price Ratio" = true /\
  (forall (df : DataFrame) (score : value) (w : Q) (c : Series),
      wf df -> getcol df "Rent-to-Price Ratio" = Ok c -> score_shape df score ->
      exists (df' : DataFrame) (score' : value),
        score_step (df, score) ("Rent-to-Price Ratio", w) = Ok (df', score') /\
        (forall i, (i < nrows df)%nat ->
           cell score' i == cell score i + w * (1 - nth i (normalized c) 0)) /\
        (0 < w ->
         forall i j, (i < nrows df)%nat -> (j < nrows df)%nat ->
           nth i c 0 < nth j c 0 ->
           cell score' j - cell score j < cell score' i - cell score i)).
Proof.
  split.
  { eexists. split; [reflexivity|]. simpl. tauto. }
  split; [reflexivity|].
  intros df score w c Hwf Hg Hs. apply getcol_lookup in Hg.
  pose proof (wf_lookup _ _ _ Hwf Hg) as Hlen.
  assert (Hcell : forall i, (i < nrows df)%nat ->
            cell (add_series score (turn_term "Rent-to-Price Ratio" w c)) i
            == cell score i + w * (1 - nth i (normalized c) 0)).
  { intros i Hi. now rewrite (score_step_cell df) by assumption. }
  eexists. eexists. split; [apply score_step_present; eassumption|].
  split; [exact Hcell|].
  intros Hw i j Hi Hj Hlt.
  rewrite (Hcell i Hi), (Hcell j Hj).
  assert (Hn : nth i (normalized c) 0 < nth j (normalized c) 0)
    by (apply normalized_increasing; try lia; exact Hlt).
  assert (Hm : w * (1 - nth j (normalized c) 0) < w * (1 - nth i (normalized c) 0)).
  { apply Qmult_lt_l; [exact Hw | lra]. }
  lra.
Qed.

Lemma rent_to_price_is_cost_like_witness :
  exists (df' : DataFrame) (score' : value),
    score_step (sample_frame, Scalar 0) ("Rent-to-Price Ratio", 1 # 3)
    = Ok (df', score') /\
    (forall i, (i < nrows sample_frame)%nat ->
       cell score' i == cell (Scalar 0) i + (1 # 3) * (1 - nth i (normalized [1; 3; 2]) 0)) /\
    (0 < 1 # 3 ->
     forall i j, (i < nrows sample_frame)%nat -> (j < nrows sample_frame)%nat ->
       nth i [1; 3; 2] 0 < nth j [1; 3; 2] 0 ->
       cell score' j - cell (Scalar 0) j < cell score' i - cell (Scalar 0) i).
Proof.
  apply (proj2 (proj2 rent_to_price_is_cost_like) sample_frame (Scalar 0) (1 # 3)
           [1; 3; 2]).
  - repeat constructor.
  - reflexivity.
  - exact I.
Defined.

(** ** The weight resolver *)

Lemma preset_has_groups p pw :
  dict_get p presets = Ok pw ->
  exists d1 d2 d3 d4,
    dict_get "STR Performance" pw = Ok d1 /\
    dict_get "LTR Safety Net" pw = Ok d2 /\
    dict_get "Entry & Value" pw = Ok d3 /\
    dict_get "Fundamentals" pw = Ok d4.
Proof.
  unfold presets. cbn [dict_get].
  destruct (String.eqb "Balanced" p);
    [|destruct (String.eqb "Cash Flow Heavy" p);
      [|destruct (String.eqb "Appreciation First" p); [|discriminate]]];
    intros [= <-]; do 4 eexists; repeat split; reflexivity.
Qed.

(** Theme mode, written out: every member of a group gets the group's
    slider value over the group's size. *)
Lemma theme_resolution w pw d1 d2 d3 d4 :
  mode w = HighLevelThemes ->
  dict_get (preset_choice w) presets = Ok pw ->
  dict_get "STR Performance" pw = Ok d1 ->
  dict_get "LTR Safety Net" pw = Ok d2 ->
  dict_get "Entry & Value" pw = Ok d3 ->
  dict_get "Fundamentals" pw = Ok d4 ->
  resolve_weights w
  = Ok [ ("Market Score", slider w "STR Performance" d1 / inject_Z 5);
         ("STR_Yield", slider w "STR Performance" d1 / inject_Z 5);
         ("Occupancy", slider w "STR Performance" d1 / inject_Z 5);
         ("Booking Demand Growth", slider w "STR Performance" d1 / inject_Z 5);
         ("STR_Positive_CF", slider w "STR Performance" d1 / inject_Z 5);
         ("Gross Yield (SFR)", slider w "LTR Safety Net" d2 / inject_Z 3);
         ("LTR_Positive_CF", slider w "LTR Safety Net" d2 / inject_Z 3);
         ("Rent-to-Price Ratio", slider w "LTR Safety Net" d2 / inject_Z 3);
         ("Small Multi Median Sales Price 2025 YtD (2–4 Units)",
           slider w "Entry & Value" d3 / inject_Z 3);
         ("Small Multi Discount Markets", slider w "Entry & Value" d3 / inject_Z 3);
         ("Home Value Growth (5 Years)", slider w "Entry & Value" d3 / inject_Z 3);
         ("Population Growth (5 years)", slider w "Fundamentals" d4 / inject_Z 3);
         ("Rent Growth (YoY)", slider w "Fundamentals" d4 / inject_Z 3);
         ("Vacancy Rate", slider w "Fundamentals" d4 / inject_Z 3) ].
Proof.
  intros Hm Hp H1 H2 H3 H4. unfold resolve_weights. rewrite Hm, Hp.
  cbn [bind]. unfold groups at 1. cbn [group_weights_of].
  rewrite H1. cbn [bind]. rewrite H2. cbn [bind]. rewrite H3. cbn [bind].
  rewrite H4. cbn [bind dict_set].
  generalize (slider w "STR Performance" d1) (slider w "LTR Safety Net" d2)
             (slider w "Entry & Value" d3) (slider w "Fundamentals" d4).
  intros g1 g2 g3 g4. reflexivity.
Qed.

Lemma all_metrics_NoDup : NoDup all_metrics.
Proof.
  unfold all_metrics, groups. simpl.
  repeat (constructor; [simpl; intuition discriminate|]). constructor.
Qed.

(** ** Claims about the weight resolver *)

(** C6.  The catalog has 4 groups and 14 metrics, no metric twice.  In
    theme mode each member metric's resolved weight is its group's slider
    weight divided by the group's member count, so the resolved weights of
    a group's members add up to the group's slider weight. *)
Theorem theme_weights_split (w : Widgets) (pw : dict Q) :
  mode w = HighLevelThemes ->
  dict_get (preset_choice w) presets = Ok pw ->
  List.length groups = 4%nat /\
  List.length all_metrics = 14%nat /\
  NoDup all_metrics /\
  exists metrics : dict Q,
    resolve_weights w = Ok metrics /\
    map fst metrics = all_metrics /\
    forall group members, In (group, members) groups ->
      exists dflt,
        dict_get group pw = Ok dflt /\
        (forall m, In m members ->
           dict_get m metrics
           = Ok (slider w group dflt
                 / inject_Z (Z.of_nat (List.length members)))) /\
        group_total metrics members == slider w group dflt.
Proof.
  intros Hm Hp.
  split; [reflexivity|]. split; [reflexivity|]. split; [apply all_metrics_NoDup|].
  destruct (preset_has_groups _ _ Hp) as [d1 [d2 [d3 [d4 [H1 [H2 [H3 H4]]]]]]].
  eexists. split; [apply (theme_resolution w pw d1 d2 d3 d4); assumption|].
  split; [reflexivity|].
  intros group members Hin. simpl in Hin.
  destruct Hin as [E|[E|[E|[E|[]]]]]; injection E as <- <-;
    eexists; (split; [eassumption|]); split.
  all: try (intros m Hm'; simpl in Hm';
            repeat (destruct Hm' as [<-|Hm']; [reflexivity|]); contradiction).
  all: unfold group_total, weight_of; cbn [map fold_right dict_get String.eqb Ascii.eqb Bool.eqb];
       unfold inject_Z; field.
Qed.

Lemma theme_weights_split_witness :
  List.length groups = 4%nat /\
  List.length all_metrics = 14%nat /\
  NoDup all_metrics /\
  exists metrics : dict Q,
    resolve_weights default_widgets = Ok metrics /\
    map fst metrics = all_metrics /\
    forall group members, In (group, members) groups ->
      exists dflt,
        dict_get group
          [ ("STR Performance", 40 # 100); ("LTR Safety Net", 25 # 100);
            ("Entry & Value", 15 # 100); ("Fundamentals", 20 # 100) ] = Ok dflt /\
        (forall m, In m members ->
           dict_get m metrics
           = Ok (slider default_widgets group dflt
                 / inject_Z (Z.of_nat (List.length members)))) /\
        group_total metrics members == slider default_widgets group dflt.
Proof.
  apply (theme_weights_split default_widgets).
  - reflexivity.
  - reflexivity.
Defined.

(** ** Selecting rows *)

Lemma select_nil_r (A : Type) (mask : list bool) : @select A mask [] = [].
Proof. destruct mask as [|[] mask]; reflexivity. Qed.

Lemma select_length_eq (A B : Type) (mask : list bool) (a : list A) (b : list B) :
  List.length a = List.length b ->
  List.length (select mask a) = List.length (select mask b).
Proof.
  revert a b. induction mask as [|m mask IH]; intros a b H; [reflexivity|].
  destruct a as [|x a], b as [|y b]; simpl in *; try lia.
  destruct m; simpl; rewrite (IH a b); lia.
Qed.

Lemma select_combine_filter (A : Type) (f : Q -> bool) (ks : Series) (xs : list A) :
  select (map f ks) xs
  = map snd (filter (fun kx => f (fst kx)) (combine ks xs)).
Proof.
  revert xs. induction ks as [|k ks IH]; intros xs; [reflexivity|].
  destruct xs as [|x xs]; [reflexivity|]. simpl.
  destruct (f k); simpl; now rewrite IH.
Qed.

Lemma rows_of_length idx cols : List.length (rows_of idx cols) = List.length idx.
Proof.
  revert cols. induction idx as [|l idx IH]; intros cols; simpl; [reflexivity|].
  now rewrite IH.
Qed.

Lemma tails_lengths (n : nat) (cols : list (string * Series)) :
  Forall (fun c => List.length (snd c) = S n) cols ->
  Forall (fun c => List.length (snd c) = n)
         (map (fun c => (fst c, tl (snd c))) cols).
Proof.
  intros H. apply Forall_map. eapply Forall_impl; [|exact H].
  intros [k s] Hs. simpl in *. destruct s; simpl in *; lia.
Qed.

(** Selecting rows column by column selects the records. *)
Lemma rows_of_select mask idx cols :
  List.length mask = List.length idx ->
  Forall (fun c => List.length (snd c) = List.length idx) cols ->
  rows_of (select mask idx) (map (fun c => (fst c, select mask (snd c))) cols)
  = select mask (rows_of idx cols).
Proof.
  revert mask cols. induction idx as [|l idx IH]; intros mask cols Hm Hc.
  - rewrite !select_nil_r. reflexivity.
  - destruct mask as [|b mask]; [discriminate|]. simpl in Hm.
    pose proof (tails_lengths _ _ Hc) as Ht.
    assert (Hsel : forall m,
              map (fun c => (fst c, select m (snd c)))
                  (map (fun c => (fst c, tl (snd c))) cols)
              = map (fun c => (fst c, select m (tl (snd c)))) cols)
      by (intros m; now rewrite map_map).
    destruct b; simpl.
    + f_equal.
      * f_equal. rewrite map_map. apply map_ext_in. intros [k s] Hin.
        rewrite Forall_forall in Hc. specialize (Hc _ Hin). simpl in *.
        destruct s; [discriminate | reflexivity].
      * rewrite <- (IH mask _ ltac:(lia) Ht). f_equal.
        rewrite !map_map. apply map_ext_in. intros [k s] Hin.
        rewrite Forall_forall in Hc. specialize (Hc _ Hin). simpl in *.
        destruct s; [discriminate | reflexivity].
    + rewrite <- (IH mask _ ltac:(lia) Ht). f_equal.
      rewrite !map_map. apply map_ext_in. intros [k s] Hin.
      rewrite Forall_forall in Hc. specialize (Hc _ Hin). simpl in *.
      destruct s; [discriminate | reflexivity].
Qed.

Lemma wf_filter_rows mask df : wf df -> wf (filter_rows mask df).
Proof.
  unfold wf, filter_rows, nrows. simpl. intros H.
  apply Forall_map. eapply Forall_impl; [|exact H].
  intros [k s] Hs. simpl in *. now apply select_length_eq.
Qed.

Lemma colnames_filter_rows mask df : colnames (filter_rows mask df) = colnames df.
Proof. unfold colnames, filter_rows. simpl. rewrite map_map. reflexivity. Qed.

Lemma Forall2_map_same (R : Q -> Q -> Prop) (f : Q -> Q) (s : Series) :
  (forall v, R (f v) v) -> Forall2 R (map f s) s.
Proof. intros H. induction s; simpl; constructor; auto. Qed.

(** ** Claims about the capital filter *)

(** C7.  Line 53 gives every market
    [Total_Cash_Required = (down payment + 0.04) * price + buffer]; line
    54 keeps, in order and with their cells untouched, exactly the records
    whose requirement is at most the ceiling (a record is dropped exactly
    when its requirement is strictly above it), and keeps the schema. *)
Theorem capital_requirement_and_filter
    (a : Assumptions) (df : DataFrame) (prices : Series) :
  wf df -> getcol df price_col = Ok prices ->
  exists (df1 : DataFrame) (tcr : Series) (df2 : DataFrame),
    total_cash_required a df = Ok df1 /\
    getcol df1 "Total_Cash_Required" = Ok tcr /\
    Forall2 (fun t p => t == (down_payment_pct a + (4 # 100)) * p + buffer a)
            tcr prices /\
    capital_filter a df1 = Ok df2 /\
    colnames df2 = colnames df1 /\
    wf df2 /\
    rows df2
    = map snd (filter (fun tr => Qle_bool (fst tr) (max_investment a))
                      (combine tcr (rows df1))) /\
    (forall t, Qle_bool t (max_investment a) = true <-> t <= max_investment a) /\
    (forall t, Qle_bool t (max_investment a) = false <-> max_investment a < t).
Proof.
  intros Hwf Hp.
  pose proof (wf_lookup _ _ _ Hwf (getcol_lookup _ _ _ Hp)) as Hlen.
  set (tcr := map (fun x => (down_payment_pct a + (4 # 100)) * x + buffer a) prices).
  set (df1 := setcol df "Total_Cash_Required" tcr).
  assert (Hwf1 : wf df1).
  { apply wf_setcol; [exact Hwf | unfold tcr; now rewrite length_map]. }
  assert (Hg1 : getcol df1 "Total_Cash_Required" = Ok tcr)
    by apply getcol_setcol_same.
  exists df1, tcr, (filter_rows (map (fun x => Qle_bool x (max_investment a)) tcr) df1).
  split; [unfold total_cash_required; rewrite Hp; reflexivity|].
  split; [exact Hg1|].
  split; [apply Forall2_map_same; intros; reflexivity|].
  split; [unfold capital_filter; rewrite Hg1; reflexivity|].
  split; [apply colnames_filter_rows|].
  split; [now apply wf_filter_rows|].
  split.
  - unfold rows, filter_rows. cbn [index columns].
    rewrite rows_of_select.
    + apply select_combine_filter.
    + rewrite length_map. unfold tcr. rewrite length_map. exact Hlen.
    + exact Hwf1.
  - split; intros t.
    + apply Qle_bool_iff.
    + split; intros H.
      * apply Qnot_le_lt. intros Hle. apply Qle_bool_iff in Hle. congruence.
      * destruct (Qle_bool t (max_investment a)) eqn:E; [|reflexivity].
        apply Qle_bool_iff in E. lra.
Qed.

Lemma capital_requirement_and_filter_witness :
  exists (df1 : DataFrame) (tcr : Series) (df2 : DataFrame),
    total_cash_required default_assumptions priced_frame = Ok df1 /\
    getcol df1 "Total_Cash_Required" = Ok tcr /\
    Forall2 (fun t p =>
               t == (down_payment_pct default_assumptions + (4 # 100)) * p
                    + buffer default_assumptions)
            tcr [100000; 250000; 400000] /\
    capital_filter default_assumptions df1 = Ok df2 /\
    colnames df2 = colnames df1 /\
    wf df2 /\
    rows df2
    = map snd (filter (fun tr => Qle_bool (fst tr) (max_investment default_assumptions))
                      (combine tcr (rows df1))) /\
    (forall t, Qle_bool t (max_investment default_assumptions) = true
               <-> t <= max_investment default_assumptions) /\
    (forall t, Qle_bool t (max_investment default_assumptions) = false
               <-> max_investment default_assumptions < t).
Proof.
  apply (capital_requirement_and_filter default_assumptions priced_frame
           [100000; 250000; 400000]).
  - repeat constructor.
  - reflexivity.
Defined.

(** ** Reordering rows *)

Lemma lookup_map_cols (g : Series -> Series) c cols :
  lookup c (map (fun x => (fst x, g (snd x))) cols) = option_map g (lookup c cols).
Proof.
  induction cols as [|[k s] rest IH]; simpl; [reflexivity|].
  destruct (String.eqb k c); [reflexivity | exact IH].
Qed.

Lemma nth_tl (s : Series) (i : nat) : nth i (tl s) 0 = nth (S i) s 0.
Proof. destruct s; [now destruct i | reflexivity]. Qed.

(** The record at position [i], read off the columns. *)
Lemma nth_rows_of idx cols i :
  Forall (fun c => List.length (snd c) = List.length idx) cols ->
  nth i (rows_of idx cols) (blank_row cols)
  = (nth i idx 0%nat, map (fun c => nth i (snd c) 0) cols).
Proof.
  revert cols i. induction idx as [|l idx IH]; intros cols i Hc.
  - simpl. unfold blank_row. destruct i; simpl; f_equal;
      apply map_ext_in; intros [k s] Hin;
      rewrite Forall_forall in Hc; specialize (Hc _ Hin); simpl in *;
      destruct s; try discriminate; reflexivity.
  - destruct i as [|i]; simpl.
    + f_equal. apply map_ext. intros [k s]. simpl. now destruct s.
    + assert (Hb : blank_row cols
                   = blank_row (map (fun c => (fst c, tl (snd c))) cols))
        by (unfold blank_row; now rewrite map_map).
      rewrite Hb, IH by (apply tails_lengths; exact Hc).
      f_equal. rewrite map_map. apply map_ext. intros [k s]. simpl.
      apply nth_tl.
Qed.

(** Taking positions column by column takes the records. *)
Lemma rows_of_take p idx cols :
  Forall (fun c => List.length (snd c) = List.length idx) cols ->
  rows_of (take 0%nat p idx) (map (fun c => (fst c, take 0 p (snd c))) cols)
  = map (fun i => nth i (rows_of idx cols) (blank_row cols)) p.
Proof.
  intros Hc. induction p as [|i p IH]; [reflexivity|].
  simpl. rewrite nth_rows_of by exact Hc. f_equal.
  - f_equal. rewrite map_map. reflexivity.
  - rewrite <- IH. f_equal. rewrite map_map. reflexivity.
Qed.

Lemma map_nth_seq0 (A : Type) (l : list A) (d : A) :
  map (fun i => nth i l d) (seq 0 (List.length l)) = l.
Proof.
  induction l as [|x l IH]; [reflexivity|].
  simpl. f_equal. rewrite <- seq_shift, map_map. exact IH.
Qed.

Lemma wf_take_rows p df : wf (take_rows p df).
Proof.
  unfold wf, take_rows, nrows, take. simpl.
  apply Forall_map. apply Forall_forall. intros [k s] _. simpl.
  now rewrite !length_map.
Qed.

Lemma colnames_take_rows p df : colnames (take_rows p df) = colnames df.
Proof. unfold colnames, take_rows. simpl. rewrite map_map. reflexivity. Qed.

(** What line 142 does under any kernel that sorts in descending order. *)
Lemma sort_values_desc_spec (k : Series -> list nat) (df : DataFrame) (keys : Series) :
  sorts_descending k -> wf df -> getcol df "Master Score" = Ok keys ->
  sort_values_desc k "Master Score" df = Ok (take_rows (k keys) df) /\
  getcol (take_rows (k keys) df) "Master Score" = Ok (take 0 (k keys) keys) /\
  StronglySorted (fun x y => y <= x) (take 0 (k keys) keys) /\
  Permutation (rows (take_rows (k keys) df)) (rows df) /\
  nrows (take_rows (k keys) df) = nrows df.
Proof.
  intros Hk Hwf Hg. destruct (Hk keys) as [Hperm Hsorted].
  pose proof (wf_lookup _ _ _ Hwf (getcol_lookup _ _ _ Hg)) as Hlen.
  split; [unfold sort_values_desc; rewrite Hg; reflexivity|].
  split.
  { unfold getcol, take_rows. simpl. rewrite lookup_map_cols.
    now rewrite (getcol_lookup _ _ _ Hg). }
  split; [exact Hsorted|].
  split.
  - unfold rows, take_rows. cbn [index columns].
    rewrite rows_of_take by exact Hwf.
    apply Permutation_trans
      with (map (fun i => nth i (rows_of (index df) (columns df))
                               (blank_row (columns df)))
                (seq 0 (List.length (rows_of (index df) (columns df))))).
    + apply Permutation_map. rewrite rows_of_length.
      rewrite Hlen in Hperm. exact Hperm.
    + rewrite map_nth_seq0. apply Permutation_refl.
  - unfold nrows, take_rows, take. simpl. rewrite length_map.
    rewrite (Permutation_length Hperm), length_seq. exact Hlen.
Qed.

(** ** A concrete sorting kernel *)

Lemma insert_after_perm x l : Permutation (insert_after x l) (x :: l).
Proof.
  induction l as [|y l IH]; simpl; [apply Permutation_refl|].
  destruct (Qle_bool (fst x) (fst y)).
  - eapply Permutation_trans; [apply perm_skip, IH | apply perm_swap].
  - apply Permutation_refl.
Qed.

Lemma isort_perm l : Permutation (fold_right insert_after [] l) l.
Proof.
  induction l as [|x l IH]; simpl; [constructor|].
  eapply Permutation_trans; [apply insert_after_perm | now apply perm_skip].
Qed.

Lemma insert_after_sorted x l :
  StronglySorted desc_pair l -> StronglySorted desc_pair (insert_after x l).
Proof.
  induction l as [|y l IH]; intros Hs; simpl.
  - constructor; constructor.
  - inversion Hs as [|? ? Hl Hy]; subst.
    destruct (Qle_bool (fst x) (fst y)) eqn:E.
    + apply Qle_bool_iff in E. constructor; [now apply IH|].
      apply (Permutation_Forall (Permutation_sym (insert_after_perm x l))).
      constructor; [exact E | exact Hy].
    + assert (Hlt : fst y < fst x).
      { apply Qnot_le_lt. intros H. apply Qle_bool_iff in H. congruence. }
      constructor; [exact Hs|].
      constructor; [unfold desc_pair; lra|].
      eapply Forall_impl; [|exact Hy].
      unfold desc_pair. intros z Hz. lra.
Qed.

Lemma isort_sorted l : StronglySorted desc_pair (fold_right insert_after [] l).
Proof.
  induction l as [|x l IH]; simpl; [constructor | now apply insert_after_sorted].
Qed.

Lemma map_snd_combine (s : Series) (l : list nat) :
  List.length s = List.length l -> map snd (combine s l) = l.
Proof.
  revert l. induction s as [|x s IH]; intros [|i l] H; simpl in *; try lia; try reflexivity.
  f_equal. apply IH. lia.
Qed.

Lemma combine_seq_nth (pre s : Series) :
  Forall (fun p => nth (snd p) (pre ++ s) 0 = fst p)
         (combine s (seq (List.length pre) (List.length s))).
Proof.
  revert pre. induction s as [|x s IH]; intros pre; simpl; constructor.
  - simpl. rewrite nth_middle. reflexivity.
  - specialize (IH (pre ++ [x])%list).
    rewrite <- app_assoc, length_app in IH. simpl in IH.
    now rewrite Nat.add_1_r in IH.
Qed.

Lemma StronglySorted_map_fst (l : list (Q * nat)) :
  StronglySorted desc_pair l -> StronglySorted (fun x y => y <= x) (map fst l).
Proof.
  induction 1 as [|a l Hl IH Ha]; simpl; constructor; [exact IH|].
  apply Forall_map. exact Ha.
Qed.

Lemma insertion_argsort_contract : sorts_descending insertion_argsort_desc.
Proof.
  intros s. unfold insertion_argsort_desc.
  set (pairs := combine s (seq 0 (List.length s))).
  split.
  - eapply Permutation_trans; [apply Permutation_map, isort_perm|].
    unfold pairs. rewrite map_snd_combine by (now rewrite length_seq).
    apply Permutation_refl.
  - unfold take. rewrite map_map.
    assert (HF : Forall (fun p => nth (snd p) s 0 = fst p)
                        (fold_right insert_after [] pairs)).
    { apply (Permutation_Forall (Permutation_sym (isort_perm pairs))).
      exact (combine_seq_nth [] s). }
    rewrite Forall_forall in HF.
    rewrite (map_ext_in _ fst) by (intros p Hp; apply HF; exact Hp).
    apply StronglySorted_map_fst, isort_sorted.
Qed.

(** ** The empty frame *)

Lemma select_none (A : Type) (ks : Series) (f : Q -> bool) (l : list A) :
  Forall (fun x => f x = false) ks -> select (map f ks) l = [].
Proof.
  intros H. revert l. induction H as [|x ks Hx H IH]; intros l; simpl; [reflexivity|].
  destruct l as [|y l]; [reflexivity|]. rewrite Hx. apply IH.
Qed.

Lemma has_col_setcol_mono df c s c' :
  has_col df c' = true -> has_col (setcol df c s) c' = true.
Proof.
  intros H. destruct (String.eqb c c') eqn:E.
  - apply String.eqb_eq in E. subst. apply has_col_setcol_same.
  - apply String.eqb_neq in E. now rewrite has_col_setcol_other.
Qed.

Lemma has_col_take_rows p df c : has_col (take_rows p df) c = has_col df c.
Proof.
  unfold has_col, take_rows. simpl. rewrite lookup_map_cols.
  now destruct (lookup c (columns df)).
Qed.

(** On a frame without rows the loop completes whatever the weights. *)
Lemma score_loop_empty (items : dict Q) :
  forall (dfk : DataFrame) (score : value),
    wf dfk -> nrows dfk = 0%nat -> score_shape dfk score ->
    exists (dfk' : DataFrame) (score' : value),
      score_loop items (dfk, score) = Ok (dfk', score') /\
      wf dfk' /\ nrows dfk' = 0%nat /\ score_shape dfk' score' /\
      (forall c, has_col dfk c = true -> has_col dfk' c = true).
Proof.
  induction items as [|[col w] rest IH]; intros dfk score Hwf Hn Hs.
  - exists dfk, score. simpl. repeat split; auto.
  - rewrite score_loop_cons.
    destruct (has_col dfk col) eqn:Hh.
    + destruct (has_col_getcol _ _ Hh) as [c [_ Hl]].
      pose proof (wf_lookup _ _ _ Hwf Hl) as Hlen.
      rewrite (score_step_present dfk score col w c Hwf Hl). simpl bind.
      destruct (IH (setcol dfk (col ++ "_norm") (normalized c))
                   (add_series score (turn_term col w c)))
        as [dfk' [score' [Hrun [Hwf' [Hn' [Hs' Hcols]]]]]].
      * apply wf_setcol; [exact Hwf | now rewrite normalized_length].
      * exact Hn.
      * apply (score_shape_nrows dfk); [reflexivity|].
        apply add_series_shape; [exact Hs | now rewrite turn_term_length].
      * exists dfk', score'. repeat split; auto.
        intros c' Hc'. apply Hcols. now apply has_col_setcol_mono.
    + rewrite score_step_absent by exact Hh. simpl bind. now apply IH.
Qed.

(** ** Claims about the empty filtered set *)

(** C9.  When every market's cash requirement is above the ceiling, the
    Capital Filter leaves a frame without rows, and on it normalisation,
    scoring and ranking run to completion under any descending sorting
    kernel and whatever the weights: the result is a well-formed frame
    with no rows that keeps the filtered frame's columns and has a Master
    Score column. *)
Theorem empty_filtered_set_runs
    (k : Series -> list nat) (a : Assumptions) (metrics : dict Q)
    (df : DataFrame) (tcr : Series) :
  sorts_descending k -> wf df ->
  getcol df "Total_Cash_Required" = Ok tcr ->
  Forall (fun t => max_investment a < t) tcr ->
  exists (filtered out : DataFrame),
    capital_filter a df = Ok filtered /\
    nrows filtered = 0%nat /\
    score_and_rank k metrics filtered = Ok out /\
    wf out /\ nrows out = 0%nat /\ rows out = [] /\
    has_col out "Master Score" = true /\
    (forall c, has_col filtered c = true -> has_col out c = true).
Proof.
  intros Hk Hwf Hg Hall.
  set (mask := map (fun x => Qle_bool x (max_investment a)) tcr).
  assert (Hnone : forall (A : Type) (l : list A), select mask l = []).
  { intros A l. apply select_none. eapply Forall_impl; [|exact Hall].
    intros t Ht. simpl in Ht. destruct (Qle_bool t (max_investment a)) eqn:E; [|reflexivity].
    apply Qle_bool_iff in E. lra. }
  assert (Hwf1 : wf (filter_rows mask df)) by now apply wf_filter_rows.
  assert (Hn1 : nrows (filter_rows mask df) = 0%nat).
  { unfold nrows, filter_rows. simpl. now rewrite Hnone. }
  destruct (score_loop_empty metrics (filter_rows mask df) (Scalar 0) Hwf1 Hn1 I)
    as [dfk [score [Hrun [Hwfk [Hnk [Hsk Hcols]]]]]].
  set (scored := setval dfk "Master Score" score).
  assert (Hwfs : wf scored).
  { apply wf_setcol; [exact Hwfk|].
    destruct score as [q|s]; simpl in *; [apply repeat_length | exact Hsk]. }
  assert (Hgs : getcol scored "Master Score" = Ok (broadcast (nrows dfk) score))
    by apply getcol_setcol_same.
  destruct (sort_values_desc_spec k scored _ Hk Hwfs Hgs) as [Hsort [_ [_ [Hperm Hnr]]]].
  set (out := take_rows (k (broadcast (nrows dfk) score)) scored) in *.
  assert (Hno : nrows out = 0%nat) by (rewrite Hnr; exact Hnk).
  exists (filter_rows mask df), out.
  split; [unfold capital_filter; rewrite Hg; reflexivity|].
  split; [exact Hn1|].
  split.
  { unfold score_and_rank, master_score. rewrite Hrun. simpl bind. exact Hsort. }
  split; [apply wf_take_rows|].
  split; [exact Hno|].
  split.
  { pose proof (rows_of_length (index out) (columns out)) as Hl.
    fold (rows out) in Hl. fold (nrows out) in Hl. rewrite Hno in Hl.
    destruct (rows out); [reflexivity | discriminate]. }
  assert (Hkeep : forall c, has_col scored c = true -> has_col out c = true).
  { intros c Hc. unfold out. now rewrite has_col_take_rows. }
  split.
  - apply Hkeep. apply has_col_setcol_same.
  - intros c Hc. apply Hkeep. apply has_col_setcol_mono. now apply Hcols.
Qed.

Lemma empty_filtered_set_runs_witness :
  exists (filtered out : DataFrame),
    capital_filter one_dollar_ceiling sample_frame = Ok filtered /\
    nrows filtered = 0%nat /\
    score_and_rank insertion_argsort_desc sample_weights filtered = Ok out /\
    wf out /\ nrows out = 0%nat /\ rows out = [] /\
    has_col out "Master Score" = true /\
    (forall c, has_col filtered c = true -> has_col out c = true).
Proof.
  apply (empty_filtered_set_runs insertion_argsort_desc one_dollar_ceiling
           sample_weights sample_frame [10; 20; 30]).
  - exact insertion_argsort_contract.
  - repeat constructor.
  - reflexivity.
  - repeat constructor.
Defined.

(** ** An end-to-end run *)

(** The whole of lines 27-142 on [priced_frame] under the sidebar
    defaults: the third market needs $126,000 and is filtered out, the
    first outranks the second. *)
Example pipeline_sample_run :
  exists out : DataFrame,
    pipeline insertion_argsort_desc default_assumptions default_widgets priced_frame
    = Ok out /\
    index out = [0; 1]%nat /\
    exists ms, getcol out "Master Score" = Ok ms /\ Forall2 Qeq ms [16 # 75; 0].
Proof.
  eexists. split; [vm_compute; reflexivity|].
  split; [reflexivity|].
  eexists. split; [reflexivity|].
  repeat constructor.
Qed.

(** * Beyond the claims *)

(** ** Cash flows (lines 41-47) *)

Ltac frame_reads :=
  repeat first [ rewrite getcol_setcol_same
               | rewrite getcol_setcol_other by discriminate ].

(** Lines 41-47 written out, on a frame that has the columns they read. *)
Lemma cash_flows_run a df rev rent mort :
  getcol df "Annual Revenue" = Ok rev ->
  getcol df "2 Bed SFR Median Rent" = Ok rent ->
  getcol df "Est_Mortgage" = Ok mort ->
  let sexp := map (fun r => r * str_expense_ratio a / 12) rev in
  let scf := map2 Qminus (map2 Qminus (map (fun r => r / 12) rev) mort) sexp in
  let lexp := map (fun r => r * ltr_expense_ratio a) rent in
  let lcf := map2 Qminus (map2 Qminus rent mort) lexp in
  cash_flows a df
  = Ok (setcol (setcol (setcol (setcol (setcol (setcol df
          "STR_Expenses" sexp) "STR_CashFlow" scf) "LTR_Expenses" lexp)
          "LTR_CashFlow" lcf) "STR_Positive_CF" (map positive_flag scf))
          "LTR_Positive_CF" (map positive_flag lcf)).
Proof.
  intros Hrev Hrent Hmort. cbv zeta. unfold cash_flows.
  repeat first [ progress frame_reads
               | rewrite Hrev | rewrite Hrent | rewrite Hmort
               | progress cbn [bind] ].
  reflexivity.
Qed.

Lemma str_cash_flow_cell sr rev mort i :
  (i < List.length rev)%nat -> List.length mort = List.length rev ->
  nth i (map2 Qminus (map2 Qminus (map (fun r => r / 12) rev) mort)
                     (map (fun r => r * sr / 12) rev)) 0
  == nth i rev 0 * (1 - sr) / 12 - nth i mort 0.
Proof.
  intros Hi Hm.
  rewrite nth_map2_lt;
    [| rewrite map2_length; rewrite length_map; lia | rewrite length_map; lia].
  rewrite nth_map2_lt; [| rewrite length_map; lia | lia].
  rewrite !nth_map_lt by lia. field.
Qed.

Lemma ltr_cash_flow_cell lr rent mort i :
  (i < List.length rent)%nat -> List.length mort = List.length rent ->
  nth i (map2 Qminus (map2 Qminus rent mort)
                     (map (fun r => r * lr) rent)) 0
  == nth i rent 0 * (1 - lr) - nth i mort 0.
Proof.
  intros Hi Hm.
  rewrite nth_map2_lt;
    [| rewrite map2_length; lia | rewrite length_map; lia].
  rewrite nth_map2_lt by lia.
  rewrite nth_map_lt by lia. ring.
Qed.

Lemma cash_flow_lengths sr lr rev rent mort n :
  List.length rev = n -> List.length rent = n -> List.length mort = n ->
  List.length (map2 Qminus (map2 Qminus (map (fun r => r / 12) rev) mort)
                           (map (fun r => r * sr / 12) rev)) = n /\
  List.length (map2 Qminus (map2 Qminus rent mort)
                           (map (fun r => r * lr) rent)) = n.
Proof.
  intros Hr Ht Hm. split.
  - rewrite map2_length; rewrite map2_length; rewrite ?length_map; lia.
  - rewrite map2_length; rewrite map2_length; rewrite ?length_map; lia.
Qed.

Lemma positive_flag_cases x :
  (positive_flag x = 1 \/ positive_flag x = 0) /\
  (positive_flag x = 1 <-> 0 < x).
Proof.
  unfold positive_flag. destruct (Qle_bool x 0) eqn:E.
  - apply Qle_bool_iff in E. split; [now right|].
    split; [discriminate | intros H; lra].
  - assert (H : 0 < x).
    { apply Qnot_le_lt. intros Hle. apply Qle_bool_iff in Hle. congruence. }
    split; [now left|]. split; auto.
Qed.

(** Lines 41-44: on a sheet with revenue, rent and mortgage columns the
    stage completes, keeps the rows, and every market's short-term cash
    flow is [revenue * (1 - STR expense ratio) / 12 - mortgage] and its
    long-term cash flow [rent * (1 - LTR expense ratio) - mortgage]. *)
Theorem cash_flow_columns (a : Assumptions) (df : DataFrame)
    (rev rent mort : Series) :
  wf df ->
  getcol df "Annual Revenue" = Ok rev ->
  getcol df "2 Bed SFR Median Rent" = Ok rent ->
  getcol df "Est_Mortgage" = Ok mort ->
  exists (out : DataFrame) (scf lcf : Series),
    cash_flows a df = Ok out /\
    index out = index df /\ wf out /\
    getcol out "STR_CashFlow" = Ok scf /\
    getcol out "LTR_CashFlow" = Ok lcf /\
    forall i, (i < nrows df)%nat ->
      nth i scf 0
      == nth i rev 0 * (1 - str_expense_ratio a) / 12 - nth i mort 0 /\
      nth i lcf 0
      == nth i rent 0 * (1 - ltr_expense_ratio a) - nth i mort 0.
Proof.
  intros Hwf Hrev Hrent Hmort.
  pose proof (wf_lookup _ _ _ Hwf (getcol_lookup _ _ _ Hrev)) as Lrev.
  pose proof (wf_lookup _ _ _ Hwf (getcol_lookup _ _ _ Hrent)) as Lrent.
  pose proof (wf_lookup _ _ _ Hwf (getcol_lookup _ _ _ Hmort)) as Lmort.
  destruct (cash_flow_lengths (str_expense_ratio a) (ltr_expense_ratio a)
              rev rent mort _ Lrev Lrent Lmort) as [Ls Ll].
  eexists. eexists. eexists.
  split; [apply (cash_flows_run a df rev rent mort); assumption|].
  split; [reflexivity|].
  split.
  { repeat apply wf_setcol; rewrite ?length_map; auto. }
  split; [frame_reads; reflexivity|].
  split; [frame_reads; reflexivity|].
  intros i Hi. split.
  - apply str_cash_flow_cell; lia.
  - apply ltr_cash_flow_cell; lia.
Qed.

Lemma cash_flow_columns_witness :
  exists (out : DataFrame) (scf lcf : Series),
    cash_flows default_assumptions mortgaged_frame = Ok out /\
    index out = index mortgaged_frame /\ wf out /\
    getcol out "STR_CashFlow" = Ok scf /\
    getcol out "LTR_CashFlow" = Ok lcf /\
    forall i, (i < nrows mortgaged_frame)%nat ->
      nth i scf 0
      == nth i [30000; 48000; 60000] 0
         * (1 - str_expense_ratio default_assumptions) / 12
         - nth i [500; 1300; 2100] 0 /\
      nth i lcf 0
      == nth i [1200; 1800; 2500] 0 * (1 - ltr_expense_ratio default_assumptions)
         - nth i [500; 1300; 2100] 0.
Proof.
  apply (cash_flow_columns default_assumptions mortgaged_frame
           [30000; 48000; 60000] [1200; 1800; 2500] [500; 1300; 2100]).
  - repeat constructor.
  - reflexivity.
  - reflexivity.
  - reflexivity.
Defined.

(** Lines 46-47: in the frame the stage returns, each flag is 0 or 1, and
    it is 1 exactly when the cash flow stored next to it in the same row
    (the [STR_CashFlow] cell for the short-term flag, the [LTR_CashFlow]
    cell for the long-term one) is strictly positive; a stored cash flow
    of zero or less is flagged 0. *)
Theorem positive_cash_flow_flags (a : Assumptions) (df : DataFrame)
    (rev rent mort : Series) :
  wf df ->
  getcol df "Annual Revenue" = Ok rev ->
  getcol df "2 Bed SFR Median Rent" = Ok rent ->
  getcol df "Est_Mortgage" = Ok mort ->
  exists (out : DataFrame) (scf lcf sflag lflag : Series),
    cash_flows a df = Ok out /\
    getcol out "STR_CashFlow" = Ok scf /\
    getcol out "LTR_CashFlow" = Ok lcf /\
    getcol out "STR_Positive_CF" = Ok sflag /\
    getcol out "LTR_Positive_CF" = Ok lflag /\
    List.length sflag = nrows df /\ List.length lflag = nrows df /\
    forall i, (i < nrows df)%nat ->
      (nth i sflag 0 = 1 \/ nth i sflag 0 = 0) /\
      (nth i sflag 0 = 1 <-> 0 < nth i scf 0) /\
      (nth i lflag 0 = 1 \/ nth i lflag 0 = 0) /\
      (nth i lflag 0 = 1 <-> 0 < nth i lcf 0).
Proof.
  intros Hwf Hrev Hrent Hmort.
  pose proof (wf_lookup _ _ _ Hwf (getcol_lookup _ _ _ Hrev)) as Lrev.
  pose proof (wf_lookup _ _ _ Hwf (getcol_lookup _ _ _ Hrent)) as Lrent.
  pose proof (wf_lookup _ _ _ Hwf (getcol_lookup _ _ _ Hmort)) as Lmort.
  destruct (cash_flow_lengths (str_expense_ratio a) (ltr_expense_ratio a)
              rev rent mort _ Lrev Lrent Lmort) as [Ls Ll].
  eexists. eexists. eexists. eexists. eexists.
  split; [apply (cash_flows_run a df rev rent mort); assumption|].
  split; [frame_reads; reflexivity|].
  split; [frame_reads; reflexivity|].
  split; [frame_reads; reflexivity|].
  split; [frame_reads; reflexivity|].
  split; [rewrite length_map; exact Ls|].
  split; [rewrite length_map; exact Ll|].
  intros i Hi.
  rewrite !nth_map_lt by lia.
  split; [apply positive_flag_cases|].
  split; [apply positive_flag_cases|].
  split; apply positive_flag_cases.
Qed.

Lemma positive_cash_flow_flags_witness :
  exists (out : DataFrame) (scf lcf sflag lflag : Series),
    cash_flows default_assumptions mortgaged_frame = Ok out /\
    getcol out "STR_CashFlow" = Ok scf /\
    getcol out "LTR_CashFlow" = Ok lcf /\
    getcol out "STR_Positive_CF" = Ok sflag /\
    getcol out "LTR_Positive_CF" = Ok lflag /\
    List.length sflag = nrows mortgaged_frame /\
    List.length lflag = nrows mortgaged_frame /\
    forall i, (i < nrows mortgaged_frame)%nat ->
      (nth i sflag 0 = 1 \/ nth i sflag 0 = 0) /\
      (nth i sflag 0 = 1 <-> 0 < nth i scf 0) /\
      (nth i lflag 0 = 1 \/ nth i lflag 0 = 0) /\
      (nth i lflag 0 = 1 <-> 0 < nth i lcf 0).
Proof.
  apply (positive_cash_flow_flags default_assumptions mortgaged_frame
           [30000; 48000; 60000] [1200; 1800; 2500] [500; 1300; 2100]).
  - repeat constructor.
  - reflexivity.
  - reflexivity.
  - reflexivity.
Defined.

(** ** The Financial Model as a whole (lines 27-53) *)

Lemma getcol_absent df c : has_col df c = false -> getcol df c = Raise (KeyError c).
Proof.
  unfold has_col, getcol. destruct (lookup c (columns df)); [discriminate | reflexivity].
Qed.

Lemma getcol_present df c s : getcol df c = Ok s -> has_col df c = true.
Proof.
  unfold has_col, getcol. destruct (lookup c (columns df)); [reflexivity | discriminate].
Qed.

Lemma series_div_nonzero (a b : Series) :
  Forall (fun p => ~ p == 0) b -> series_div a b = Ok (map2 Qdiv a b).
Proof.
  intros Hb. revert a. induction Hb as [|y b Hy Hb IH]; intros [|x a]; simpl; try reflexivity.
  apply Qeq_bool_false_iff in Hy. rewrite Hy. now rewrite IH.
Qed.

(** Lines 27-53 written out, on a sheet with the three raw columns, a
    positive rate, a term other than 0 and no zero price. *)
Lemma financial_model_run a df price rev rent :
  getcol df price_col = Ok price ->
  getcol df "Annual Revenue" = Ok rev ->
  getcol df "2 Bed SFR Median Rent" = Ok rent ->
  0 < interest_rate a -> loan_term_years a <> 0%Z ->
  Forall (fun p => ~ p == 0) price ->
  exists mm df6,
    monthly_mortgage a price = Ok mm /\
    cash_flows a (setcol df "Est_Mortgage" mm) = Ok df6 /\
    financial_model a df
    = Ok (setcol (setcol df6 "STR_Yield" (map2 Qdiv rev price))
                 "Total_Cash_Required"
                 (map (fun x => (down_payment_pct a + (4 # 100)) * x + buffer a)
                      price)).
Proof.
  intros Hp Hrev Hrent Hr Ht Hnz.
  pose proof (monthly_mortgage_positive_rate a price Hr Ht) as Hmm.
  match type of Hmm with _ = Ok ?m => set (mm := m) in * end.
  assert (Hrev1 : getcol (setcol df "Est_Mortgage" mm) "Annual Revenue" = Ok rev)
    by (rewrite getcol_setcol_other by discriminate; exact Hrev).
  assert (Hrent1 : getcol (setcol df "Est_Mortgage" mm) "2 Bed SFR Median Rent"
                   = Ok rent)
    by (rewrite getcol_setcol_other by discriminate; exact Hrent).
  pose proof (cash_flows_run a (setcol df "Est_Mortgage" mm) rev rent mm
                Hrev1 Hrent1 (getcol_setcol_same df "Est_Mortgage" mm)) as Hcf.
  cbv zeta in Hcf.
  exists mm. eexists. split; [exact Hmm|]. split; [exact Hcf|].
  unfold financial_model. rewrite Hp. cbn [bind]. rewrite Hmm. cbn [bind].
  rewrite Hcf. cbn [bind]. frame_reads. rewrite Hrev. cbn [bind].
  rewrite (series_div_nonzero rev price Hnz). cbn [bind].
  unfold total_cash_required.
  rewrite !getcol_setcol_other by (unfold price_col; discriminate).
  rewrite Hp. reflexivity.
Qed.

(** On such a sheet the Financial Model completes: it keeps the rows and
    every column it did not derive, adds the nine derived columns, and
    gives every market the yield [annual revenue / price]. *)
Theorem financial_model_completes (a : Assumptions) (df : DataFrame)
    (price rev rent : Series) :
  wf df ->
  getcol df price_col = Ok price ->
  getcol df "Annual Revenue" = Ok rev ->
  getcol df "2 Bed SFR Median Rent" = Ok rent ->
  0 < interest_rate a -> loan_term_years a <> 0%Z ->
  Forall (fun p => ~ p == 0) price ->
  exists out : DataFrame,
    financial_model a df = Ok out /\
    index out = index df /\ wf out /\
    (forall c, In c derived_columns -> has_col out c = true) /\
    (forall c, ~ In c derived_columns ->
       lookup c (columns out) = lookup c (columns df)) /\
    exists yield : Series,
      getcol out "STR_Yield" = Ok yield /\
      forall i, (i < nrows df)%nat ->
        nth i yield 0 == nth i rev 0 / nth i price 0.
Proof.
  intros Hwf Hp Hrev Hrent Hr Ht Hnz.
  pose proof (wf_lookup _ _ _ Hwf (getcol_lookup _ _ _ Hp)) as Lp.
  pose proof (wf_lookup _ _ _ Hwf (getcol_lookup _ _ _ Hrev)) as Lrev.
  pose proof (wf_lookup _ _ _ Hwf (getcol_lookup _ _ _ Hrent)) as Lrent.
  destruct (financial_model_run a df price rev rent Hp Hrev Hrent Hr Ht Hnz)
    as [mm [df6 [Hmm [Hcf Hrun]]]].
  assert (Lmm : List.length mm = nrows df).
  { rewrite monthly_mortgage_positive_rate in Hmm by assumption.
    injection Hmm as <-. now rewrite !length_map. }
  assert (Hrev1 : getcol (setcol df "Est_Mortgage" mm) "Annual Revenue" = Ok rev)
    by (rewrite getcol_setcol_other by discriminate; exact Hrev).
  assert (Hrent1 : getcol (setcol df "Est_Mortgage" mm) "2 Bed SFR Median Rent"
                   = Ok rent)
    by (rewrite getcol_setcol_other by discriminate; exact Hrent).
  rewrite (cash_flows_run a (setcol df "Est_Mortgage" mm) rev rent mm
             Hrev1 Hrent1 (getcol_setcol_same df "Est_Mortgage" mm)) in Hcf.
  cbv zeta in Hcf. injection Hcf as <-.
  eexists. split; [exact Hrun|].
  split; [reflexivity|].
  destruct (cash_flow_lengths (str_expense_ratio a) (ltr_expense_ratio a)
              rev rent mm _ Lrev Lrent Lmm) as [Ls Ll].
  split.
  { repeat apply wf_setcol; try exact Hwf;
      unfold nrows in *; cbn [setcol index] in *;
      rewrite ?length_map; try assumption; rewrite map2_length; lia. }
  split.
  { intros c Hc. simpl in Hc.
    repeat (destruct Hc as [<-|Hc];
            [repeat first [apply has_col_setcol_same | apply has_col_setcol_mono]|]).
    contradiction. }
  split.
  { intros c Hc. unfold setcol. cbn [columns].
    repeat (rewrite lookup_assign_other;
            [|intros E; apply Hc; rewrite <- E; simpl; tauto]).
    reflexivity. }
  eexists. split; [frame_reads; reflexivity|].
  intros i Hi. rewrite nth_map2_lt by lia. reflexivity.
Qed.

Lemma financial_model_completes_witness :
  exists out : DataFrame,
    financial_model default_assumptions priced_frame = Ok out /\
    index out = index priced_frame /\ wf out /\
    (forall c, In c derived_columns -> has_col out c = true) /\
    (forall c, ~ In c derived_columns ->
       lookup c (columns out) = lookup c (columns priced_frame)) /\
    exists yield : Series,
      getcol out "STR_Yield" = Ok yield /\
      forall i, (i < nrows priced_frame)%nat ->
        nth i yield 0
        == nth i [30000; 48000; 60000] 0 / nth i [100000; 250000; 400000] 0.
Proof.
  apply (financial_model_completes default_assumptions priced_frame
           [100000; 250000; 400000] [30000; 48000; 60000] [1200; 1800; 2500]).
  - repeat constructor.
  - reflexivity.
  - reflexivity.
  - reflexivity.
  - reflexivity.
  - discriminate.
  - repeat constructor; discriminate.
Defined.

(** A missing raw column stops lines 27-53 with a [KeyError] that names
    it: the price column first (whatever the rate), then, once the
    mortgage is computed, the revenue column, then the rent column. *)
Theorem financial_model_missing_column (a : Assumptions) (df : DataFrame) :
  (has_col df price_col = false ->
   financial_model a df = Raise (KeyError price_col)) /\
  (has_col df price_col = true ->
   0 < interest_rate a -> loan_term_years a <> 0%Z ->
   has_col df "Annual Revenue" = false ->
   financial_model a df = Raise (KeyError "Annual Revenue")) /\
  (has_col df price_col = true ->
   0 < interest_rate a -> loan_term_years a <> 0%Z ->
   has_col df "Annual Revenue" = true ->
   has_col df "2 Bed SFR Median Rent" = false ->
   financial_model a df = Raise (KeyError "2 Bed SFR Median Rent")).
Proof.
  split; [|split].
  - intros H. unfold financial_model. now rewrite (getcol_absent _ _ H).
  - intros Hp Hr Ht Hrev.
    destruct (has_col_getcol _ _ Hp) as [price [Hg _]].
    unfold financial_model. rewrite Hg. cbn [bind].
    rewrite (monthly_mortgage_positive_rate a price Hr Ht). cbn [bind].
    unfold cash_flows. rewrite getcol_setcol_other by discriminate.
    now rewrite (getcol_absent _ _ Hrev).
  - intros Hp Hr Ht Hrev Hrent.
    destruct (has_col_getcol _ _ Hp) as [price [Hg _]].
    destruct (has_col_getcol _ _ Hrev) as [rev [Hgr _]].
    unfold financial_model. rewrite Hg. cbn [bind].
    rewrite (monthly_mortgage_positive_rate a price Hr Ht). cbn [bind].
    unfold cash_flows.
    repeat first [ progress frame_reads | rewrite Hgr | progress cbn [bind] ].
    now rewrite (getcol_absent _ _ Hrent).
Qed.

Lemma financial_model_missing_column_witness :
  financial_model default_assumptions no_revenue_frame
  = Raise (KeyError "Annual Revenue") /\
  financial_model default_assumptions no_rent_frame
  = Raise (KeyError "2 Bed SFR Median Rent") /\
  financial_model default_assumptions sample_frame = Raise (KeyError price_col).
Proof.
  split; [|split].
  - apply (proj1 (proj2 (financial_model_missing_column default_assumptions
                           no_revenue_frame))).
    + reflexivity.
    + reflexivity.
    + discriminate.
    + reflexivity.
  - apply (proj2 (proj2 (financial_model_missing_column default_assumptions
                           no_rent_frame))).
    + reflexivity.
    + reflexivity.
    + discriminate.
    + reflexivity.
    + reflexivity.
  - apply (proj1 (financial_model_missing_column default_assumptions sample_frame)).
    reflexivity.
Defined.

(** ** The size of the payment (lines 34-37) *)

Lemma Qpower_succ_nat b (k : nat) :
  ~ b == 0 ->
  Qpower b (Z.of_nat (S k)) == Qpower b (Z.of_nat k) * b.
Proof.
  intros Hb. rewrite Nat2Z.inj_succ. unfold Z.succ.
  rewrite Qpower_plus by exact Hb. now rewrite Qpower_1_r.
Qed.

(** Growth over [k+1] periods at rate [r] stays below [k+1] times the
    last period's interest. *)
Lemma compound_growth_bound r (k : nat) :
  0 < r ->
  1 < Qpower (1 + r) (Z.of_nat (S k)) /\
  Qpower (1 + r) (Z.of_nat (S k)) - 1
  < inject_Z (Z.of_nat (S k)) * r * Qpower (1 + r) (Z.of_nat (S k)).
Proof.
  intros Hr. assert (Hb : ~ 1 + r == 0) by lra.
  induction k as [|k [IH1 IH2]].
  - change (Qpower (1 + r) (Z.of_nat 1)) with (Qpower (1 + r) 1).
    rewrite Qpower_1_r. change (inject_Z (Z.of_nat 1)) with 1.
    split; [lra|]. assert (0 < r * r) by (apply Qmult_lt_0_compat; lra). lra.
  - rewrite (Qpower_succ_nat _ (S k) Hb).
    set (x := Qpower (1 + r) (Z.of_nat (S k))) in *.
    assert (HN : inject_Z (Z.of_nat (S (S k))) == inject_Z (Z.of_nat (S k)) + 1).
    { rewrite (Nat2Z.inj_succ (S k)). unfold Z.succ. now rewrite inject_Z_plus. }
    rewrite HN.
    set (N := inject_Z (Z.of_nat (S k))) in *.
    assert (HNpos : 0 < N).
    { unfold N. change 0 with (inject_Z 0). rewrite <- Zlt_Qlt. lia. }
    assert (Hrx : 0 < r * x) by (apply Qmult_lt_0_compat; lra).
    assert (Hrrx : 0 < r * (r * x)) by (apply Qmult_lt_0_compat; lra).
    assert (HNrrx : 0 < N * (r * (r * x))) by (apply Qmult_lt_0_compat; lra).
    split.
    + assert (E : x * (1 + r) == x + r * x) by ring. lra.
    + assert (E : (N + 1) * r * (x * (1 + r))
                  == N * r * x + r * x + N * (r * (r * x)) + r * (r * x)) by ring.
      assert (E' : x * (1 + r) - 1 == (x - 1) + r * x) by ring.
      rewrite E, E'. lra.
Qed.

Lemma positive_Z_as_succ (n : Z) : (0 < n)%Z -> exists k, n = Z.of_nat (S k).
Proof.
  intros Hn. exists (Z.to_nat n - 1)%nat. lia.
Qed.

(** With a positive rate and a positive term, every market that borrows a
    positive amount pays each month more than the month's interest on the
    whole loan, and over the term more than the loan; a market that
    borrows nothing pays nothing. *)
Theorem payment_amortizes (a : Assumptions) (price : Series) :
  0 < interest_rate a -> (0 < loan_term_years a)%Z ->
  exists pay : Series,
    monthly_mortgage a price = Ok pay /\
    Forall2 (fun m p =>
               let loan := p * (1 - down_payment_pct a) in
               (0 < loan ->
                loan * (interest_rate a / 12) < m /\
                loan < inject_Z (loan_term_years a * 12) * m) /\
               (loan == 0 -> m == 0))
            pay price.
Proof.
  intros Hr Ht.
  assert (Ht' : loan_term_years a <> 0%Z) by lia.
  eexists. split; [apply monthly_mortgage_positive_rate; assumption|].
  fold (monthly_interest a). fold (num_payments a).
  assert (Hmi : 0 < monthly_interest a).
  { unfold monthly_interest. apply Qlt_shift_div_l; [reflexivity | lra]. }
  destruct (positive_Z_as_succ (num_payments a)) as [k Hk];
    [unfold num_payments; lia|].
  rewrite Hk. destruct (compound_growth_bound _ k Hmi) as [Hx Hgrow].
  set (r := monthly_interest a) in *.
  set (x := Qpower (1 + r) (Z.of_nat (S k))) in *.
  set (N := inject_Z (Z.of_nat (S k))) in *.
  assert (Hd : 0 < x - 1) by lra.
  assert (Hf : r < r * x / (x - 1)).
  { apply Qlt_shift_div_l; [exact Hd|].
    assert (E : r * (x - 1) == r * x - r) by ring. lra. }
  assert (Hnf : 1 < N * (r * x / (x - 1))).
  { assert (E : N * (r * x / (x - 1)) == (N * r * x) / (x - 1))
      by (field; lra).
    rewrite E. apply Qlt_shift_div_l; [exact Hd | lra]. }
  rewrite map_map. apply Forall2_map_same. intros p. cbv zeta.
  set (loan := p * (1 - down_payment_pct a)).
  split.
  - intros Hl. split.
    + apply Qmult_lt_l; assumption.
    + assert (E : N * (loan * (r * x / (x - 1)))
                  == loan * (N * (r * x / (x - 1)))) by ring.
      rewrite E.
      assert (E1 : loan == loan * 1) by ring. rewrite E1 at 1.
      apply Qmult_lt_l; assumption.
  - intros Hz. rewrite Hz. ring.
Qed.

Lemma payment_amortizes_witness :
  exists pay : Series,
    monthly_mortgage default_assumptions [100000; 250000; 0] = Ok pay /\
    Forall2 (fun m p =>
               let loan := p * (1 - down_payment_pct default_assumptions) in
               (0 < loan ->
                loan * (interest_rate default_assumptions / 12) < m /\
                loan < inject_Z (loan_term_years default_assumptions * 12) * m) /\
               (loan == 0 -> m == 0))
            pay [100000; 250000; 0].
Proof.
  apply (payment_amortizes default_assumptions [100000; 250000; 0]).
  - reflexivity.
  - reflexivity.
Defined.

(** ** More on the capital filter (line 54) *)

Lemma select_select (A : Type) (f g : Q -> bool) (ks : Series) (l : list A) :
  (forall x, f x = true -> g x = true) ->
  select (map f (select (map g ks) ks)) (select (map g ks) l)
  = select (map f ks) l.
Proof.
  intros Hfg. revert l. induction ks as [|k ks IH]; intros l.
  - reflexivity.
  - destruct l as [|x l].
    + now rewrite !select_nil_r.
    + simpl. destruct (g k) eqn:Eg; simpl.
      * destruct (f k); now rewrite IH.
      * destruct (f k) eqn:Ef; [apply Hfg in Ef; congruence | apply IH].
Qed.

Lemma select_In (A : Type) (mask : list bool) (l : list A) (x : A) :
  In x (select mask l) -> In x l.
Proof.
  revert l. induction mask as [|b mask IH]; intros [|y l] H; simpl in *; try contradiction.
  destruct b; simpl in *; intuition.
Qed.

Lemma select_length_le (A : Type) (mask : list bool) (l : list A) :
  (List.length (select mask l) <= List.length l)%nat.
Proof.
  revert l. induction mask as [|b mask IH]; intros [|y l]; simpl; try lia.
  specialize (IH l). destruct b; simpl; lia.
Qed.

Lemma select_map_holds (f : Q -> bool) (ks : Series) :
  Forall (fun x => f x = true) (select (map f ks) ks).
Proof.
  induction ks as [|k ks IH]; simpl; [constructor|].
  destruct (f k) eqn:E; [constructor; assumption | exact IH].
Qed.

Lemma getcol_filter_rows mask df c s :
  getcol df c = Ok s -> getcol (filter_rows mask df) c = Ok (select mask s).
Proof.
  intros H. apply getcol_lookup in H. unfold getcol, filter_rows. simpl.
  rewrite lookup_map_cols, H. reflexivity.
Qed.

(** Filtering on the column of an already filtered frame, with a test
    that is no weaker. *)
Lemma filter_rows_twice (f g : Q -> bool) (t : Series) (df : DataFrame) :
  (forall x, f x = true -> g x = true) ->
  filter_rows (map f (select (map g t) t)) (filter_rows (map g t) df)
  = filter_rows (map f t) df.
Proof.
  intros Hfg. unfold filter_rows. cbn [index columns]. f_equal.
  - now apply select_select.
  - rewrite map_map. apply map_ext. intros [k s]. cbn [fst snd].
    f_equal. now apply select_select.
Qed.

Lemma ceiling_test_weaker (lo hi x : Q) :
  lo <= hi -> Qle_bool x lo = true -> Qle_bool x hi = true.
Proof.
  intros H Hx. apply Qle_bool_iff in Hx. apply Qle_bool_iff. lra.
Qed.

(** Applying the capital filter twice with the same ceiling gives the
    frame that applying it once gives. *)
Theorem capital_filter_idempotent (a : Assumptions) (df : DataFrame) (t : Series) :
  getcol df "Total_Cash_Required" = Ok t ->
  exists once : DataFrame,
    capital_filter a df = Ok once /\ capital_filter a once = Ok once.
Proof.
  intros Hg. eexists. split; [unfold capital_filter; rewrite Hg; reflexivity|].
  unfold capital_filter.
  rewrite (getcol_filter_rows _ _ _ _ Hg). cbn [bind]. f_equal.
  apply (filter_rows_twice (fun x => Qle_bool x (max_investment a))
                           (fun x => Qle_bool x (max_investment a))).
  auto.
Qed.

Lemma capital_filter_idempotent_witness :
  exists once : DataFrame,
    capital_filter default_assumptions costed_frame = Ok once /\
    capital_filter default_assumptions once = Ok once.
Proof.
  apply (capital_filter_idempotent default_assumptions costed_frame
           [54000; 90000; 126000]).
  reflexivity.
Defined.

(** Tightening the ceiling in two steps is the same as tightening it at
    once: filtering with a ceiling after filtering with a higher one gives
    what the lower ceiling gives alone, so no market excluded by a ceiling
    comes back under a lower one. *)
Theorem capital_filter_tightens (lo hi : Assumptions) (df : DataFrame) (t : Series) :
  wf df ->
  getcol df "Total_Cash_Required" = Ok t ->
  max_investment lo <= max_investment hi ->
  exists (wide narrow : DataFrame),
    capital_filter hi df = Ok wide /\
    capital_filter lo df = Ok narrow /\
    capital_filter lo wide = Ok narrow /\
    (forall r, In r (rows narrow) -> In r (rows wide)).
Proof.
  intros Hwf Hg Hle.
  pose proof (wf_lookup _ _ _ Hwf (getcol_lookup _ _ _ Hg)) as Lt.
  set (ghi := fun x => Qle_bool x (max_investment hi)).
  set (flo := fun x => Qle_bool x (max_investment lo)).
  assert (Hcomp : filter_rows (map flo (select (map ghi t) t))
                              (filter_rows (map ghi t) df)
                  = filter_rows (map flo t) df).
  { apply filter_rows_twice. intros x. now apply ceiling_test_weaker. }
  exists (filter_rows (map ghi t) df), (filter_rows (map flo t) df).
  split; [unfold capital_filter; rewrite Hg; reflexivity|].
  split; [unfold capital_filter; rewrite Hg; reflexivity|].
  split.
  - unfold capital_filter. rewrite (getcol_filter_rows _ _ _ _ Hg). cbn [bind].
    fold flo. now rewrite Hcomp.
  - intros r Hr. rewrite <- Hcomp in Hr.
    pose proof (wf_filter_rows (map ghi t) df Hwf) as Hwfw.
    set (wide := filter_rows (map ghi t) df) in *.
    assert (Hrows : rows (filter_rows (map flo (select (map ghi t) t)) wide)
                    = select (map flo (select (map ghi t) t)) (rows wide)).
    { unfold rows at 1. unfold filter_rows at 1. cbn [index columns].
      apply rows_of_select; [|exact Hwfw].
      rewrite length_map. unfold wide, filter_rows. cbn [index].
      apply select_length_eq. exact Lt. }
    rewrite Hrows in Hr. now apply select_In in Hr.
Qed.

Lemma capital_filter_tightens_witness :
  exists (wide narrow : DataFrame),
    capital_filter default_assumptions costed_frame = Ok wide /\
    capital_filter tight_ceiling costed_frame = Ok narrow /\
    capital_filter tight_ceiling wide = Ok narrow /\
    (forall r, In r (rows narrow) -> In r (rows wide)).
Proof.
  apply (capital_filter_tightens tight_ceiling default_assumptions costed_frame
           [54000; 90000; 126000]).
  - repeat constructor.
  - reflexivity.
  - discriminate.
Defined.

(** What the filter keeps: every kept market's requirement is within the
    ceiling, every kept record is a record of the frame, and the frame
    never grows. *)
Theorem capital_filter_keeps_affordable (a : Assumptions) (df : DataFrame) (t : Series) :
  wf df ->
  getcol df "Total_Cash_Required" = Ok t ->
  exists (kept : DataFrame) (tk : Series),
    capital_filter a df = Ok kept /\
    getcol kept "Total_Cash_Required" = Ok tk /\
    Forall (fun x => x <= max_investment a) tk /\
    (nrows kept <= nrows df)%nat /\
    (forall r, In r (rows kept) -> In r (rows df)) /\
    (Forall (fun x => x <= max_investment a) t -> kept = df).
Proof.
  intros Hwf Hg.
  pose proof (wf_lookup _ _ _ Hwf (getcol_lookup _ _ _ Hg)) as Lt.
  set (f := fun x => Qle_bool x (max_investment a)).
  exists (filter_rows (map f t) df), (select (map f t) t).
  split; [unfold capital_filter; rewrite Hg; reflexivity|].
  split; [now apply getcol_filter_rows|].
  split.
  { eapply Forall_impl; [|apply select_map_holds].
    intros x Hx. now apply Qle_bool_iff. }
  split; [unfold nrows, filter_rows; cbn [index]; apply select_length_le|].
  split.
  { intros r Hr. unfold rows, filter_rows in Hr. cbn [index columns] in Hr.
    rewrite rows_of_select in Hr;
      [now apply select_In in Hr | now rewrite length_map | exact Hwf]. }
  intros Hall.
  assert (Htrue : Forall (fun x => f x = true) t).
  { eapply Forall_impl; [|exact Hall]. intros x Hx. now apply Qle_bool_iff. }
  assert (Hsel : forall (A : Type) (l : list A),
            List.length l = List.length t -> select (map f t) l = l).
  { clear - Htrue. intros A l. revert l.
    induction Htrue as [|x t Hx Ht IH]; intros [|y l] Hl; simpl in *; try lia;
      try reflexivity.
    rewrite Hx. f_equal. apply IH. lia. }
  destruct df as [idx cols]. unfold filter_rows. cbn [index columns] in *. f_equal.
  - apply Hsel. unfold nrows in Lt. simpl in Lt. lia.
  - rewrite <- (map_id cols) at 2. apply map_ext_in. intros [k s] Hin.
    cbn [fst snd]. unfold id. rewrite Hsel; [reflexivity|].
    unfold wf in Hwf. rewrite Forall_forall in Hwf. specialize (Hwf _ Hin).
    simpl in Hwf. unfold nrows in *. simpl in *. lia.
Qed.

Lemma capital_filter_keeps_affordable_witness :
  exists (kept : DataFrame) (tk : Series),
    capital_filter default_assumptions costed_frame = Ok kept /\
    getcol kept "Total_Cash_Required" = Ok tk /\
    Forall (fun x => x <= max_investment default_assumptions) tk /\
    (nrows kept <= nrows costed_frame)%nat /\
    (forall r, In r (rows kept) -> In r (rows costed_frame)) /\
    (Forall (fun x => x <= max_investment default_assumptions)
            [54000; 90000; 126000] -> kept = costed_frame).
Proof.
  apply (capital_filter_keeps_affordable default_assumptions costed_frame
           [54000; 90000; 126000]).
  - repeat constructor.
  - reflexivity.
Defined.

(** ** More on the weight resolver (lines 107-128) *)

(** Detailed mode, written out. *)
Lemma detailed_resolution w :
  mode w = DetailedMetrics ->
  resolve_weights w
  = Ok (map (fun m => (m, slider w m (5 # 100))) all_metrics).
Proof.
  intros Hm. unfold resolve_weights. rewrite Hm. reflexivity.
Qed.

(** In detailed mode the resolver cannot fail: the scheme lists the 14
    metrics in catalog order, each with the position of its own slider
    (0.05 until moved), whatever the preset selector holds. *)
Theorem detailed_weights (w : Widgets) :
  mode w = DetailedMetrics ->
  exists metrics : dict Q,
    resolve_weights w = Ok metrics /\
    map fst metrics = all_metrics /\
    (forall m, In m all_metrics ->
       dict_get m metrics = Ok (slider w m (5 # 100))).
Proof.
  intros Hm. eexists. split; [apply detailed_resolution; exact Hm|].
  split; [reflexivity|].
  intros m Hin. unfold all_metrics, groups in Hin. simpl in Hin.
  repeat (destruct Hin as [<-|Hin]; [reflexivity|]). contradiction.
Qed.

Lemma detailed_weights_witness :
  exists metrics : dict Q,
    resolve_weights detailed_widgets = Ok metrics /\
    map fst metrics = all_metrics /\
    (forall m, In m all_metrics ->
       dict_get m metrics = Ok (slider detailed_widgets m (5 # 100))).
Proof. apply (detailed_weights detailed_widgets). reflexivity. Defined.

Lemma dict_get_missing (V : Type) (k : string) (d : dict V) :
  ~ In k (map fst d) -> dict_get k d = Raise (KeyError k).
Proof.
  induction d as [|[k' v] d IH]; simpl; intros H; [reflexivity|].
  destruct (String.eqb k' k) eqn:E.
  - apply String.eqb_eq in E. exfalso. apply H. now left.
  - apply IH. intros Hin. apply H. now right.
Qed.

(** Whatever the mode, the preset and the sliders, a scheme that the
    resolver returns has the 14 catalog metrics as its keys, in catalog
    order and without repetition; and the resolver fails only in theme
    mode on a preset name that is not a preset, with a [KeyError] naming
    it. *)
Theorem resolved_scheme_keys (w : Widgets) :
  (forall metrics, resolve_weights w = Ok metrics ->
     map fst metrics = all_metrics /\ NoDup (map fst metrics)) /\
  (mode w = HighLevelThemes ->
   ~ In (preset_choice w) (map fst presets) ->
   resolve_weights w = Raise (KeyError (preset_choice w))) /\
  (mode w = DetailedMetrics \/ In (preset_choice w) (map fst presets) ->
   exists metrics, resolve_weights w = Ok metrics).
Proof.
  split; [|split].
  - intros metrics Hres.
    assert (Hk : map fst metrics = all_metrics).
    { destruct (mode w) eqn:Hm.
      - pose proof Hres as Hres'. unfold resolve_weights in Hres'.
        rewrite Hm in Hres'. apply bind_ok in Hres'. destruct Hres' as [pw [Hp _]].
        destruct (preset_has_groups _ _ Hp) as [d1 [d2 [d3 [d4 [H1 [H2 [H3 H4]]]]]]].
        rewrite (theme_resolution w pw d1 d2 d3 d4 Hm Hp H1 H2 H3 H4) in Hres.
        injection Hres as <-. reflexivity.
      - rewrite (detailed_resolution w Hm) in Hres. injection Hres as <-.
        reflexivity. }
    split; [exact Hk|]. rewrite Hk. apply all_metrics_NoDup.
  - intros Hm Hp. unfold resolve_weights. rewrite Hm.
    now rewrite (dict_get_missing _ _ _ Hp).
  - intros [Hm|Hp].
    + eexists. apply detailed_resolution. exact Hm.
    + destruct (mode w) eqn:Hm; [|eexists; apply detailed_resolution; exact Hm].
      assert (Hpw : exists pw, dict_get (preset_choice w) presets = Ok pw).
      { simpl in Hp. destruct Hp as [E|[E|[E|[]]]]; rewrite <- E; eexists; reflexivity. }
      destruct Hpw as [pw Hpw].
      destruct (preset_has_groups _ _ Hpw) as [d1 [d2 [d3 [d4 [H1 [H2 [H3 H4]]]]]]].
      eexists. apply (theme_resolution w pw d1 d2 d3 d4); assumption.
Qed.

Lemma resolved_scheme_keys_witness :
  exists metrics : dict Q,
    resolve_weights default_widgets = Ok metrics /\
    map fst metrics = all_metrics /\ NoDup (map fst metrics).
Proof.
  destruct (proj2 (proj2 (resolved_scheme_keys default_widgets))) as [m Hm].
  - right. simpl. left. reflexivity.
  - exists m. split; [exact Hm|].
    apply (proj1 (resolved_scheme_keys default_widgets) m Hm).
Defined.

Lemma preset_defaults_sum p pw :
  dict_get p presets = Ok pw ->
  exists d1 d2 d3 d4,
    dict_get "STR Performance" pw = Ok d1 /\
    dict_get "LTR Safety Net" pw = Ok d2 /\
    dict_get "Entry & Value" pw = Ok d3 /\
    dict_get "Fundamentals" pw = Ok d4 /\
    d1 + d2 + d3 + d4 == 1.
Proof.
  unfold presets. cbn [dict_get].
  destruct (String.eqb "Balanced" p);
    [|destruct (String.eqb "Cash Flow Heavy" p);
      [|destruct (String.eqb "Appreciation First" p); [|discriminate]]];
    intros [= <-]; do 4 eexists; repeat split; reflexivity.
Qed.

(** In theme mode the fourteen resolved weights add up to the sum of the
    four group sliders; every preset's defaults add up to 1, so with the
    sliders left at a preset the weights of the scheme add up to 1. *)
Theorem theme_total_weight (w : Widgets) (pw : dict Q) :
  mode w = HighLevelThemes ->
  dict_get (preset_choice w) presets = Ok pw ->
  exists (metrics : dict Q) (d1 d2 d3 d4 : Q),
    resolve_weights w = Ok metrics /\
    dict_get "STR Performance" pw = Ok d1 /\
    dict_get "LTR Safety Net" pw = Ok d2 /\
    dict_get "Entry & Value" pw = Ok d3 /\
    dict_get "Fundamentals" pw = Ok d4 /\
    d1 + d2 + d3 + d4 == 1 /\
    group_total metrics all_metrics
    == slider w "STR Performance" d1 + slider w "LTR Safety Net" d2
       + slider w "Entry & Value" d3 + slider w "Fundamentals" d4.
Proof.
  intros Hm Hp.
  destruct (preset_defaults_sum _ _ Hp) as [d1 [d2 [d3 [d4 [H1 [H2 [H3 [H4 Hs]]]]]]]].
  eexists. exists d1, d2, d3, d4.
  split; [apply (theme_resolution w pw d1 d2 d3 d4); assumption|].
  repeat (split; [assumption|]).
  generalize (slider w "STR Performance" d1) (slider w "LTR Safety Net" d2)
             (slider w "Entry & Value" d3) (slider w "Fundamentals" d4).
  intros g1 g2 g3 g4.
  unfold group_total, weight_of, all_metrics, groups.
  cbn [map fold_right dict_get String.eqb Ascii.eqb Bool.eqb List.concat app snd].
  unfold inject_Z. field.
Qed.

Lemma theme_total_weight_witness :
  exists (metrics : dict Q) (d1 d2 d3 d4 : Q),
    resolve_weights default_widgets = Ok metrics /\
    dict_get "STR Performance"
      [ ("STR Performance", 40 # 100); ("LTR Safety Net", 25 # 100);
        ("Entry & Value", 15 # 100); ("Fundamentals", 20 # 100) ] = Ok d1 /\
    dict_get "LTR Safety Net"
      [ ("STR Performance", 40 # 100); ("LTR Safety Net", 25 # 100);
        ("Entry & Value", 15 # 100); ("Fundamentals", 20 # 100) ] = Ok d2 /\
    dict_get "Entry & Value"
      [ ("STR Performance", 40 # 100); ("LTR Safety Net", 25 # 100);
        ("Entry & Value", 15 # 100); ("Fundamentals", 20 # 100) ] = Ok d3 /\
    dict_get "Fundamentals"
      [ ("STR Performance", 40 # 100); ("LTR Safety Net", 25 # 100);
        ("Entry & Value", 15 # 100); ("Fundamentals", 20 # 100) ] = Ok d4 /\
    d1 + d2 + d3 + d4 == 1 /\
    group_total metrics all_metrics
    == slider default_widgets "STR Performance" d1
       + slider default_widgets "LTR Safety Net" d2
       + slider default_widgets "Entry & Value" d3
       + slider default_widgets "Fundamentals" d4.
Proof.
  apply (theme_total_weight default_widgets).
  - reflexivity.
  - reflexivity.
Defined.

(** ** More on normalisation and scoring (lines 131-141) *)

(** Every cell of a stored normalised column lies in [0,1], degenerate
    and empty columns included. *)
Lemma normalized_unit (s : Series) : Forall (fun n => 0 <= n <= 1) (normalized s).
Proof.
  destruct s as [|x rest] eqn:Es; [constructor|]. rewrite <- Es.
  assert (Hs : s <> []) by (rewrite Es; discriminate).
  destruct (series_extremes_nonempty s Hs) as [mx [mn [Hmx Hmn]]].
  apply series_max_is_max in Hmx. apply series_min_is_min in Hmn.
  destruct (Qeq_dec mx mn) as [E|E].
  - destruct (normalized_degenerate s mn mx Hmn Hmx E) as [_ ->].
    apply Forall_forall. intros n Hn. apply repeat_spec in Hn. subst n.
    split; discriminate.
  - pose proof (normalized_nondegenerate s mn mx Hmn Hmx E) as HF.
    destruct Hmn as [_ Hlo]. destruct Hmx as [_ Hhi].
    rewrite Forall_forall in Hlo, Hhi.
    assert (Hin : forall v, In v s -> mn <= v <= mx) by (intros v Hv; split; auto).
    clear Hlo Hhi Hs Es.
    induction HF as [|n v ns vs Hn HF IH]; constructor.
    + destruct (unit_interval_cell v mn mx) as [Hb _];
        [apply Hin; now left | apply Hin; now left | exact E |].
      rewrite Hn. exact Hb.
    + apply IH. intros w Hw. apply Hin. now right.
Qed.

Lemma normalized_cell_unit (s : Series) (i : nat) :
  0 <= nth i (normalized s) 0 <= 1.
Proof.
  destruct (Nat.lt_ge_cases i (List.length (normalized s))) as [Hi|Hi].
  - pose proof (normalized_unit s) as H. rewrite Forall_forall in H.
    apply H. now apply nth_In.
  - rewrite nth_overflow by exact Hi. split; discriminate.
Qed.

Lemma directional_norm_unit df col i : 0 <= directional_norm df col i <= 1.
Proof.
  unfold directional_norm. destruct (lookup col (columns df)) as [c|].
  - pose proof (normalized_cell_unit c i) as H. cbv zeta.
    destruct (is_cost_like col); lra.
  - split; discriminate.
Qed.

(** Lines 131-141 on a well-formed frame, for a scheme over recognised
    metrics: the run and the cells of the Master Score column. *)
Lemma master_score_run (metrics : dict Q) (df : DataFrame) :
  wf df ->
  (forall k, In k (map fst metrics) -> In k all_metrics) ->
  exists (dfk : DataFrame) (score : value),
    score_loop metrics (df, Scalar 0) = Ok (dfk, score) /\
    master_score metrics df = Ok (setval dfk "Master Score" score) /\
    wf dfk /\ nrows dfk = nrows df /\
    List.length (broadcast (nrows dfk) score) = nrows df /\
    forall i, (i < nrows df)%nat ->
      nth i (broadcast (nrows dfk) score) 0 == weighted_sum df metrics i.
Proof.
  intros Hwf Hkeys.
  destruct (score_loop_spec df all_metrics all_metrics_fresh metrics df (Scalar 0))
    as [dfk [score [Hrun [Hwf' [Hn [Hs Hcell]]]]]]; auto.
  { intros it Hit. apply Hkeys. now apply in_map. }
  { exact I. }
  exists dfk, score.
  split; [exact Hrun|].
  split; [unfold master_score; rewrite Hrun; reflexivity|].
  split; [exact Hwf'|]. split; [exact Hn|]. split.
  - destruct score as [q|s]; simpl in *; [rewrite repeat_length|]; lia.
  - intros i Hi. rewrite cell_broadcast by lia. rewrite (Hcell i Hi). reflexivity.
Qed.

Lemma weighted_fold_bounds (g : string -> Q) (l : dict Q) (a b : Q) :
  (forall k, 0 <= g k <= 1) ->
  Forall (fun item => 0 <= snd item) l ->
  0 <= a <= b ->
  0 <= fold_left (fun acc item => acc + snd item * g (fst item)) l a
  <= fold_left (fun acc item => acc + snd item) l b.
Proof.
  intros Hg Hl. revert a b. induction Hl as [|[k w] l Hw Hl IH]; intros a b Hab.
  - exact Hab.
  - simpl. apply IH. simpl in Hw. specialize (Hg k).
    assert (H1 : 0 <= w * g k) by (apply Qmult_le_0_compat; lra).
    assert (H2 : 0 <= w * (1 - g k)) by (apply Qmult_le_0_compat; lra).
    assert (E : w * (1 - g k) == w - w * g k) by ring.
    lra.
Qed.

(** With non-negative weights every market's Master Score lies between 0
    and the total weight of the metrics that are columns of the frame. *)
Theorem master_score_bounds (metrics : dict Q) (df : DataFrame) :
  wf df ->
  (forall k, In k (map fst metrics) -> In k all_metrics) ->
  Forall (fun item => 0 <= snd item) metrics ->
  exists (out : DataFrame) (ms : Series),
    master_score metrics df = Ok out /\
    getcol out "Master Score" = Ok ms /\
    List.length ms = nrows df /\
    Forall (fun x => 0 <= x <= present_weight df metrics) ms.
Proof.
  intros Hwf Hkeys Hpos.
  destruct (master_score_run metrics df Hwf Hkeys)
    as [dfk [score [_ [Hrun [_ [_ [Hlen Hcell]]]]]]].
  eexists. eexists. split; [exact Hrun|].
  split; [apply getcol_setcol_same|]. split; [exact Hlen|].
  apply Forall_forall. intros x Hx.
  destruct (In_nth _ _ 0 Hx) as [i [Hi <-]]. rewrite Hlen in Hi.
  rewrite (Hcell i Hi). unfold weighted_sum, present_weight.
  apply (weighted_fold_bounds (fun k => directional_norm df k i)).
  - intros k. apply directional_norm_unit.
  - apply Forall_forall. intros it Hit. apply filter_In in Hit.
    rewrite Forall_forall in Hpos. now apply Hpos.
  - split; discriminate.
Qed.

Lemma master_score_bounds_witness :
  exists (out : DataFrame) (ms : Series),
    master_score sample_weights sample_frame = Ok out /\
    getcol out "Master Score" = Ok ms /\
    List.length ms = nrows sample_frame /\
    Forall (fun x => 0 <= x <= present_weight sample_frame sample_weights) ms.
Proof.
  apply (master_score_bounds sample_weights sample_frame).
  - repeat constructor.
  - simpl. intros k [<-|[<-|[<-|[]]]]; vm_compute; tauto.
  - repeat constructor; discriminate.
Defined.

Lemma scaled_fold (c : Q) (g : string -> Q) (l : dict Q) (a : Q) :
  fold_left (fun acc item => acc + snd item * g (fst item)) (scale_weights c l) (c * a)
  == c * fold_left (fun acc item => acc + snd item * g (fst item)) l a.
Proof.
  revert a. induction l as [|[k w] l IH]; intros a; simpl; [reflexivity|].
  rewrite <- IH. apply (fold_sum_compat g). ring.
Qed.

Lemma filter_scale_weights (p : string -> bool) c (l : dict Q) :
  filter (fun item => p (fst item)) (scale_weights c l)
  = scale_weights c (filter (fun item => p (fst item)) l).
Proof.
  induction l as [|[k w] l IH]; simpl; [reflexivity|].
  destruct (p k); simpl; now rewrite IH.
Qed.

(** Multiplying every weight of the scheme by the same number multiplies
    every market's Master Score by that number; with a positive factor
    the comparison of any two markets' scores is unchanged. *)
Theorem master_score_scales (c : Q) (metrics : dict Q) (df : DataFrame) :
  wf df ->
  (forall k, In k (map fst metrics) -> In k all_metrics) ->
  exists (out out' : DataFrame) (ms ms' : Series),
    master_score metrics df = Ok out /\
    master_score (scale_weights c metrics) df = Ok out' /\
    getcol out "Master Score" = Ok ms /\
    getcol out' "Master Score" = Ok ms' /\
    (forall i, (i < nrows df)%nat -> nth i ms' 0 == c * nth i ms 0) /\
    (0 < c ->
     forall i j, (i < nrows df)%nat -> (j < nrows df)%nat ->
       (nth i ms 0 <= nth j ms 0 <-> nth i ms' 0 <= nth j ms' 0)).
Proof.
  intros Hwf Hkeys.
  assert (Hkeys' : forall k, In k (map fst (scale_weights c metrics)) ->
                             In k all_metrics).
  { intros k Hk. apply Hkeys. unfold scale_weights in Hk.
    rewrite map_map in Hk. exact Hk. }
  destruct (master_score_run metrics df Hwf Hkeys)
    as [dfk [score [_ [Hrun [_ [_ [_ Hcell]]]]]]].
  destruct (master_score_run _ df Hwf Hkeys')
    as [dfk' [score' [_ [Hrun' [_ [_ [_ Hcell']]]]]]].
  do 4 eexists. split; [exact Hrun|]. split; [exact Hrun'|].
  split; [apply getcol_setcol_same|]. split; [apply getcol_setcol_same|].
  assert (Hscale : forall i, (i < nrows df)%nat ->
            nth i (broadcast (nrows dfk') score') 0
            == c * nth i (broadcast (nrows dfk) score) 0).
  { intros i Hi. rewrite (Hcell i Hi), (Hcell' i Hi). unfold weighted_sum.
    rewrite (filter_scale_weights (has_col df)).
    rewrite <- (scaled_fold c (fun k => directional_norm df k i)).
    apply (fold_sum_compat (fun k => directional_norm df k i)). ring. }
  split; [exact Hscale|].
  intros Hc i j Hi Hj. rewrite (Hscale i Hi), (Hscale j Hj).
  symmetry. apply Qmult_le_l. exact Hc.
Qed.

Lemma master_score_scales_witness :
  exists (out out' : DataFrame) (ms ms' : Series),
    master_score sample_weights sample_frame = Ok out /\
    master_score (scale_weights 2 sample_weights) sample_frame = Ok out' /\
    getcol out "Master Score" = Ok ms /\
    getcol out' "Master Score" = Ok ms' /\
    (forall i, (i < nrows sample_frame)%nat -> nth i ms' 0 == 2 * nth i ms 0) /\
    (0 < 2 ->
     forall i j, (i < nrows sample_frame)%nat -> (j < nrows sample_frame)%nat ->
       (nth i ms 0 <= nth j ms 0 <-> nth i ms' 0 <= nth j ms' 0)).
Proof.
  apply (master_score_scales 2 sample_weights sample_frame).
  - repeat constructor.
  - simpl. intros k [<-|[<-|[<-|[]]]]; vm_compute; tauto.
Defined.

(** ** Rescaling a metric (line 134) *)

Lemma is_min_affine a b s m :
  0 < a -> is_min s m -> is_min (map (fun v => a * v + b) s) (a * m + b).
Proof.
  intros Ha [Hex Hall]. split.
  - apply Exists_exists. apply Exists_exists in Hex. destruct Hex as [x [Hx E]].
    exists (a * x + b). split; [exact (in_map (fun v => a * v + b) s x Hx)|].
    now rewrite E.
  - apply Forall_map. eapply Forall_impl; [|exact Hall].
    intros x Hx. simpl in Hx.
    assert (H : a * m <= a * x) by (apply Qmult_le_l; assumption). lra.
Qed.

Lemma is_max_affine a b s m :
  0 < a -> is_max s m -> is_max (map (fun v => a * v + b) s) (a * m + b).
Proof.
  intros Ha [Hex Hall]. split.
  - apply Exists_exists. apply Exists_exists in Hex. destruct Hex as [x [Hx E]].
    exists (a * x + b). split; [exact (in_map (fun v => a * v + b) s x Hx)|].
    now rewrite E.
  - apply Forall_map. eapply Forall_impl; [|exact Hall].
    intros x Hx. simpl in Hx.
    assert (H : a * x <= a * m) by (apply Qmult_le_l; assumption). lra.
Qed.

Lemma Forall2_Qeq_repeat (q : Q) (n : nat) : Forall2 Qeq (repeat q n) (repeat q n).
Proof. induction n; simpl; constructor; [reflexivity | assumption]. Qed.

(** An increasing affine change of every value of a column leaves its
    normalised column as it was. *)
Lemma normalization_affine_cells (a b : Q) (s : Series) :
  0 < a ->
  Forall2 Qeq (normalized (map (fun v => a * v + b) s)) (normalized s).
Proof.
  intros Ha.
  destruct s as [|x rest] eqn:Es; [constructor|]. rewrite <- Es.
  assert (Hs : s <> []) by (rewrite Es; discriminate).
  destruct (series_extremes_nonempty s Hs) as [mx [mn [Hmx Hmn]]].
  apply series_max_is_max in Hmx. apply series_min_is_min in Hmn.
  pose proof (is_min_affine a b s mn Ha Hmn) as Hmn'.
  pose proof (is_max_affine a b s mx Ha Hmx) as Hmx'.
  destruct (Qeq_dec mx mn) as [E|E].
  - assert (E' : a * mx + b == a * mn + b) by (rewrite E; reflexivity).
    destruct (normalized_degenerate _ _ _ Hmn Hmx E) as [_ ->].
    destruct (normalized_degenerate _ _ _ Hmn' Hmx' E') as [_ ->].
    rewrite length_map. apply Forall2_Qeq_repeat.
  - assert (E' : ~ a * mx + b == a * mn + b).
    { intros H. apply E.
      assert (H0 : a * (mx - mn) == 0) by (ring_simplify; lra).
      apply Qmult_integral in H0. destruct H0 as [H0|H0]; lra. }
    pose proof (normalized_nondegenerate _ _ _ Hmn Hmx E) as HF.
    pose proof (normalized_nondegenerate _ _ _ Hmn' Hmx' E') as HF'.
    clear Hmn Hmx Hmn' Hmx' Hs Es.
    revert HF'. generalize (normalized (map (fun v => a * v + b) s)).
    induction HF as [|n v ns vs Hn HF IH]; intros l HF'; simpl in HF';
      inversion HF' as [|n' v' ns' vs' Hn' HFt]; subst; constructor.
    + rewrite Hn, Hn'. field. split; [lra|].
      intros H. apply E'. lra.
    + now apply IH.
Qed.

(** ** A single market (lines 131-141) *)

Lemma normalized_singleton (x : Q) : normalized [x] = [0].
Proof.
  unfold normalized, col_norm. simpl. now rewrite Qeq_bool_refl.
Qed.

Lemma plain_sum_compat (l : dict Q) (a a' : Q) :
  a == a' ->
  fold_left (fun acc item => acc + snd item) l a
  == fold_left (fun acc item => acc + snd item) l a'.
Proof.
  revert a a'. induction l as [|it l IH]; intros a a' H; simpl; [exact H|].
  apply IH. now rewrite H.
Qed.

(** When every present column is worth 1 on the cost-like metrics and 0
    on the others, the weighted sum is the total cost-like weight. *)
Lemma weighted_fold_cost_like (df : DataFrame) (i : nat) (metrics : dict Q) (a : Q) :
  (forall col, has_col df col = true ->
     directional_norm df col i == (if is_cost_like col then 1 else 0)) ->
  fold_left (fun acc item => acc + snd item * directional_norm df (fst item) i)
            (filter (fun item => has_col df (fst item)) metrics) a
  == fold_left (fun acc item => acc + snd item)
               (filter (fun item => has_col df (fst item)) (cost_like_part metrics)) a.
Proof.
  intros Hd. unfold cost_like_part. revert a.
  induction metrics as [|[col w] l IH]; intros a; simpl; [reflexivity|].
  destruct (has_col df col) eqn:Hh; destruct (is_cost_like col) eqn:Hc;
    simpl; rewrite ?Hh; simpl; rewrite <- ?IH; try reflexivity.
  - apply (fold_sum_compat (fun k => directional_norm df k i)).
    pose proof (Hd col Hh) as E. rewrite Hc in E. rewrite E. ring.
  - apply (fold_sum_compat (fun k => directional_norm df k i)).
    pose proof (Hd col Hh) as E. rewrite Hc in E. rewrite E. ring.
Qed.

Lemma weighted_sum_cost_like (df : DataFrame) (i : nat) (metrics : dict Q) :
  (forall col, has_col df col = true ->
     directional_norm df col i == (if is_cost_like col then 1 else 0)) ->
  weighted_sum df metrics i == present_weight df (cost_like_part metrics).
Proof.
  intros Hd. unfold weighted_sum, present_weight.
  now apply weighted_fold_cost_like.
Qed.

(** When a single market passes the filter every column is constant, so
    its Master Score is the total weight of the cost-like metrics that
    are columns (the names with "Price" or "Vacancy"), whatever its
    values. *)
Theorem single_market_score (metrics : dict Q) (df : DataFrame) :
  wf df -> nrows df = 1%nat ->
  (forall k, In k (map fst metrics) -> In k all_metrics) ->
  exists (out : DataFrame) (ms : Q),
    master_score metrics df = Ok out /\
    getcol out "Master Score" = Ok [ms] /\
    ms == present_weight df (cost_like_part metrics).
Proof.
  intros Hwf Hn Hkeys.
  destruct (master_score_run metrics df Hwf Hkeys)
    as [dfk [score [_ [Hrun [_ [_ [Hlen Hcell]]]]]]].
  rewrite Hn in Hlen.
  destruct (broadcast (nrows dfk) score) as [|ms [|? ?]] eqn:Eb; try discriminate.
  exists (setval dfk "Master Score" score), ms.
  split; [exact Hrun|].
  split; [unfold setval; rewrite Eb; apply getcol_setcol_same|].
  specialize (Hcell 0%nat ltac:(lia)). simpl in Hcell. rewrite Hcell.
  apply weighted_sum_cost_like.
  intros col Hh. destruct (has_col_getcol _ _ Hh) as [c [_ Hl]].
  pose proof (wf_lookup _ _ _ Hwf Hl) as Hc. rewrite Hn in Hc.
  destruct c as [|x [|? ?]]; try discriminate.
  unfold directional_norm. rewrite Hl. cbv zeta. rewrite normalized_singleton.
  simpl. destruct (is_cost_like col); [ring | reflexivity].
Qed.

Lemma single_market_score_witness :
  exists (out : DataFrame) (ms : Q),
    master_score lone_weights lone_market = Ok out /\
    getcol out "Master Score" = Ok [ms] /\
    ms == present_weight lone_market (cost_like_part lone_weights).
Proof.
  apply (single_market_score lone_weights lone_market).
  - repeat constructor.
  - reflexivity.
  - simpl. intros k [<-|[<-|[<-|[]]]]; vm_compute; tauto.
Defined.

(** ** The columns the scoring loop writes (lines 133-141) *)

Lemma string_length_append (a s : string) :
  String.length (a ++ s) = (String.length a + String.length s)%nat.
Proof. induction a as [|c a IH]; simpl; [reflexivity | now rewrite IH]. Qed.

Lemma append_cancel_r (a b s : string) : a ++ s = b ++ s -> a = b.
Proof.
  revert b. induction a as [|c a IH]; intros [|c' b] H; simpl in H.
  - reflexivity.
  - apply (f_equal String.length) in H. simpl in H.
    rewrite string_length_append in H. lia.
  - apply (f_equal String.length) in H. simpl in H.
    rewrite string_length_append in H. lia.
  - injection H as -> H. f_equal. now apply IH.
Qed.

(** What the loop leaves in the frame: the index as it was, under
    [col_norm] the normalised raw column of every weighted metric that is
    a column, and every other name as it was. *)
Lemma score_loop_columns (df0 : DataFrame) (K : list string) :
  (forall k k', In k K -> In k' K -> k' <> k ++ "_norm") ->
  forall (items : dict Q) (dfk : DataFrame) (score : value)
         (dfk' : DataFrame) (score' : value),
    (forall it, In it items -> In (fst it) K) ->
    wf dfk -> nrows dfk = nrows df0 ->
    (forall k, In k K -> lookup k (columns dfk) = lookup k (columns df0)) ->
    score_loop items (dfk, score) = Ok (dfk', score') ->
    index dfk' = index dfk /\
    (forall col w c, In (col, w) items -> lookup col (columns df0) = Some c ->
       lookup (col ++ "_norm") (columns dfk') = Some (normalized c)) /\
    (forall name,
       (forall col w, In (col, w) items -> has_col df0 col = true ->
          name <> col ++ "_norm") ->
       lookup name (columns dfk') = lookup name (columns dfk)).
Proof.
  intros Hfresh items.
  induction items as [|[col w] rest IH];
    intros dfk score dfk' score' HK Hwf Hn Hraw Hrun.
  - simpl in Hrun. injection Hrun as <- <-.
    split; [reflexivity|]. split; [intros ? ? ? []|]. reflexivity.
  - assert (HcolK : In col K) by (apply (HK (col, w)); now left).
    assert (HK' : forall it, In it rest -> In (fst it) K)
      by (intros it Hit; apply HK; now right).
    pose proof (Hraw col HcolK) as Hcol.
    rewrite score_loop_cons in Hrun.
    destruct (lookup col (columns df0)) as [c|] eqn:Hl0.
    + rewrite (score_step_present dfk score col w c Hwf Hcol) in Hrun.
      cbn [bind] in Hrun.
      pose proof (wf_lookup _ _ _ Hwf Hcol) as Hlen.
      set (dfk1 := setcol dfk (col ++ "_norm") (normalized c)) in *.
      assert (Hwf1 : wf dfk1)
        by (apply wf_setcol; [exact Hwf | now rewrite normalized_length]).
      assert (Hraw1 : forall k, In k K ->
                lookup k (columns dfk1) = lookup k (columns df0)).
      { intros k Hk. unfold dfk1, setcol; simpl.
        rewrite lookup_assign_other; [now apply Hraw|].
        intros E. exact (Hfresh col k HcolK Hk (eq_sym E)). }
      destruct (IH dfk1 _ dfk' score' HK' Hwf1 Hn Hraw1 Hrun)
        as [Hidx [Hnorm Hkeep]].
      split; [rewrite Hidx; reflexivity|]. split.
      * intros col' w' c' [E|Hin] Hl'.
        -- injection E as <- <-. rewrite Hl0 in Hl'. injection Hl' as <-.
           destruct (in_dec string_dec col
                       (map fst (filter (fun it => has_col df0 (fst it)) rest)))
             as [Hagain|Hnot].
           ++ apply in_map_iff in Hagain. destruct Hagain as [[col2 w2] [E2 Hin2]].
              simpl in E2. subst col2. apply filter_In in Hin2.
              destruct Hin2 as [Hin2 _]. exact (Hnorm col w2 c Hin2 Hl0).
           ++ rewrite Hkeep.
              ** unfold dfk1, setcol. simpl. apply lookup_assign_same.
              ** intros col2 w2 Hin2 Hh2 E2. apply append_cancel_r in E2.
                 subst col2. apply Hnot. apply in_map_iff.
                 exists (col, w2). split; [reflexivity|].
                 apply filter_In. split; [exact Hin2 | exact Hh2].
        -- exact (Hnorm col' w' c' Hin Hl').
      * intros name Hname. rewrite Hkeep.
        -- unfold dfk1, setcol. simpl. apply lookup_assign_other.
           intros E. apply (Hname col w); [now left | | now symmetry].
           unfold has_col. now rewrite Hl0.
        -- intros col2 w2 Hin2 Hh2. apply (Hname col2 w2); [now right | exact Hh2].
    + rewrite score_step_absent in Hrun by (unfold has_col; now rewrite Hcol).
      cbn [bind] in Hrun.
      destruct (IH dfk _ dfk' score' HK' Hwf Hn Hraw Hrun) as [Hidx [Hnorm Hkeep]].
      split; [exact Hidx|]. split.
      * intros col' w' c' [E|Hin] Hl'.
        -- injection E as <- <-. congruence.
        -- exact (Hnorm col' w' c' Hin Hl').
      * intros name Hname. apply Hkeep.
        intros col2 w2 Hin2 Hh2. apply (Hname col2 w2); [now right | exact Hh2].
Qed.

Lemma master_score_not_norm k : In k all_metrics ->
  "Master Score" <> k /\ "Master Score" <> k ++ "_norm".
Proof.
  intros Hk.
  assert (H : forallb (fun a => negb (String.eqb "Master Score" a)
                                && negb (String.eqb "Master Score" (a ++ "_norm")))
                      all_metrics = true) by (vm_compute; reflexivity).
  rewrite forallb_forall in H. specialize (H k Hk).
  apply andb_true_iff in H. destruct H as [H1 H2].
  apply negb_true_iff in H1, H2.
  split; now apply String.eqb_neq.
Qed.

(** After scoring, the frame has the rows and the raw metric columns it
    had, and for every weighted metric that is a column it holds, under
    the metric's name followed by [_norm], that column normalised: one
    cell per market, each in [0,1]. *)
Theorem scoring_stores_normalised_columns (metrics : dict Q) (df : DataFrame) :
  wf df ->
  (forall k, In k (map fst metrics) -> In k all_metrics) ->
  exists out : DataFrame,
    master_score metrics df = Ok out /\
    index out = index df /\
    (forall k, In k all_metrics ->
       lookup k (columns out) = lookup k (columns df)) /\
    (forall col w c, In (col, w) metrics -> getcol df col = Ok c ->
       getcol out (col ++ "_norm") = Ok (normalized c) /\
       List.length (normalized c) = nrows df /\
       Forall (fun x => 0 <= x <= 1) (normalized c)).
Proof.
  intros Hwf Hkeys.
  assert (HK : forall it, In it metrics -> In (fst it) all_metrics)
    by (intros it Hit; apply Hkeys; now apply in_map).
  destruct (master_score_run metrics df Hwf Hkeys)
    as [dfk [score [Hloop [Hrun _]]]].
  destruct (score_loop_columns df all_metrics all_metrics_fresh metrics df
              (Scalar 0) dfk score HK Hwf eq_refl (fun _ _ => eq_refl) Hloop)
    as [Hidx [Hnorm Hkeep]].
  eexists. split; [exact Hrun|].
  split; [exact Hidx|]. split.
  - intros k Hk. unfold setval, setcol. simpl.
    rewrite lookup_assign_other by (apply master_score_not_norm; exact Hk).
    apply Hkeep. intros col w Hin _.
    apply all_metrics_fresh; [apply (HK (col, w) Hin) | exact Hk].
  - intros col w c Hin Hg. apply getcol_lookup in Hg.
    pose proof (HK (col, w) Hin) as HcolK. simpl in HcolK.
    split; [|split].
    + unfold getcol, setval, setcol. simpl.
      rewrite lookup_assign_other by (apply master_score_not_norm; exact HcolK).
      now rewrite (Hnorm col w c Hin Hg).
    + rewrite normalized_length. exact (wf_lookup _ _ _ Hwf Hg).
    + apply normalized_unit.
Qed.

Lemma scoring_stores_normalised_columns_witness :
  exists out : DataFrame,
    master_score sample_weights sample_frame = Ok out /\
    index out = index sample_frame /\
    (forall k, In k all_metrics ->
       lookup k (columns out) = lookup k (columns sample_frame)) /\
    (forall col w c, In (col, w) sample_weights -> getcol sample_frame col = Ok c ->
       getcol out (col ++ "_norm") = Ok (normalized c) /\
       List.length (normalized c) = nrows sample_frame /\
       Forall (fun x => 0 <= x <= 1) (normalized c)).
Proof.
  apply (scoring_stores_normalised_columns sample_weights sample_frame).
  - repeat constructor.
  - simpl. intros k [<-|[<-|[<-|[]]]]; vm_compute; tauto.
Defined.

(** ** The ranked frame, the results table and the comparison
       (lines 131-168) *)

(** Lines 131-142 on a well-formed frame under a descending kernel. *)
Lemma score_and_rank_run (k : Series -> list nat) (metrics : dict Q)
    (df : DataFrame) :
  sorts_descending k -> wf df ->
  (forall m, In m (map fst metrics) -> In m all_metrics) ->
  exists (scored : DataFrame) (ms : Series),
    master_score metrics df = Ok scored /\
    getcol scored "Master Score" = Ok ms /\
    List.length ms = nrows df /\
    wf scored /\ index scored = index df /\
    (forall m, In m all_metrics ->
       lookup m (columns scored) = lookup m (columns df)) /\
    score_and_rank k metrics df = Ok (take_rows (k ms) scored).
Proof.
  intros Hk Hwf Hkeys.
  assert (HK : forall it, In it metrics -> In (fst it) all_metrics)
    by (intros it Hit; apply Hkeys; now apply in_map).
  destruct (master_score_run metrics df Hwf Hkeys)
    as [dfk [score [Hloop [Hrun [Hwfk [Hnk [Hlen _]]]]]]].
  destruct (score_loop_columns df all_metrics all_metrics_fresh metrics df
              (Scalar 0) dfk score HK Hwf eq_refl (fun _ _ => eq_refl) Hloop)
    as [Hidx [_ Hkeep]].
  exists (setval dfk "Master Score" score), (broadcast (nrows dfk) score).
  split; [exact Hrun|].
  split; [apply getcol_setcol_same|].
  split; [exact Hlen|].
  split; [apply wf_setcol; [exact Hwfk | lia]|].
  split; [exact Hidx|].
  split.
  - intros m Hm. unfold setval, setcol. simpl.
    rewrite lookup_assign_other by (apply master_score_not_norm; exact Hm).
    apply Hkeep. intros col w Hin _.
    apply all_metrics_fresh; [apply (HK (col, w) Hin) | exact Hm].
  - unfold score_and_rank. rewrite Hrun. cbn [bind].
    unfold sort_values_desc. unfold setval. now rewrite getcol_setcol_same.
Qed.

Lemma pick_columns_first_missing names df :
  (exists m, In m names /\ has_col df m = false) ->
  exists key, pick_columns names df = Raise (KeyError key) /\
              In key names /\ has_col df key = false.
Proof.
  induction names as [|n rest IH]; intros [m [Hin Habs]]; [contradiction|].
  simpl. destruct (lookup n (columns df)) as [s|] eqn:Hl.
  - destruct IH as [key [Hrun [Hkey Hk]]].
    + exists m. split; [|exact Habs]. destruct Hin as [->|Hin]; [|exact Hin].
      unfold has_col in Habs. rewrite Hl in Habs. discriminate.
    + exists key. rewrite Hrun. simpl. auto.
  - exists n. split; [reflexivity|]. split; [now left|].
    unfold has_col. now rewrite Hl.
Qed.

Lemma pick_columns_all names df :
  (forall m, In m names -> has_col df m = true) ->
  exists cols, pick_columns names df = Ok cols /\
               map fst cols = names /\
               Forall (fun c => lookup (fst c) (columns df) = Some (snd c)) cols.
Proof.
  induction names as [|n rest IH]; intros Hall.
  - exists []. repeat split; constructor.
  - destruct IH as [cols [Hrun [Hn Hc]]]; [intros m Hm; apply Hall; now right|].
    destruct (has_col_getcol df n (Hall n (or_introl eq_refl))) as [s [_ Hl]].
    exists ((n, s) :: cols). simpl. rewrite Hl, Hrun. simpl.
    repeat split; [now rewrite Hn | constructor; assumption].
Qed.

(** Scoring passes over a weight whose column is absent, but line 146
    does not: when some weighted metric is not a column of the frame, the
    ranking completes and the results table then stops with a [KeyError]
    on a weighted metric that the frame lacks. *)
Theorem results_table_needs_every_metric
    (k : Series -> list nat) (metrics : dict Q) (top_n : nat) (df : DataFrame) :
  sorts_descending k -> wf df ->
  (forall m, In m (map fst metrics) -> In m all_metrics) ->
  (exists m, In m (map fst metrics) /\ has_col df m = false) ->
  exists (ranked : DataFrame) (key : string),
    score_and_rank k metrics df = Ok ranked /\
    results_table metrics top_n ranked = Raise (KeyError key) /\
    In key (map fst metrics) /\ has_col df key = false.
Proof.
  intros Hk Hwf Hkeys [m [Hin Habs]].
  destruct (score_and_rank_run k metrics df Hk Hwf Hkeys)
    as [scored [ms [_ [Hms [_ [_ [_ [Hraw Hrun]]]]]]]].
  set (ranked := take_rows (k ms) scored) in *.
  assert (Hhas : forall x, In x (map fst metrics) -> has_col ranked x = has_col df x).
  { intros x Hx. unfold ranked. rewrite has_col_take_rows.
    unfold has_col. now rewrite (Hraw x (Hkeys x Hx)). }
  destruct (pick_columns_first_missing (map fst metrics) ranked)
    as [key [Hpick [Hkey Hk']]].
  { exists m. split; [exact Hin|]. now rewrite Hhas. }
  exists ranked, key. split; [exact Hrun|].
  split; [|split; [exact Hkey | now rewrite <- Hhas]].
  unfold results_table. cbn [pick_columns].
  assert (Hsc : has_col ranked "Master Score" = true).
  { unfold ranked. rewrite has_col_take_rows. now apply getcol_present in Hms. }
  destruct (has_col_getcol _ _ Hsc) as [s [_ Hl]]. rewrite Hl, Hpick. reflexivity.
Qed.

Lemma results_table_needs_every_metric_witness :
  exists (ranked : DataFrame) (key : string),
    score_and_rank insertion_argsort_desc sample_weights sample_frame = Ok ranked /\
    results_table sample_weights 10 ranked = Raise (KeyError key) /\
    In key (map fst sample_weights) /\ has_col sample_frame key = false.
Proof.
  apply (results_table_needs_every_metric insertion_argsort_desc sample_weights
           10 sample_frame).
  - exact insertion_argsort_contract.
  - repeat constructor.
  - simpl. intros k [<-|[<-|[<-|[]]]]; vm_compute; tauto.
  - exists "Occupancy". split; [simpl; tauto | reflexivity].
Defined.

Lemma sorted_firstn_skipn (l : Series) (n : nat) :
  StronglySorted (fun x y => y <= x) l ->
  forall x y, In x (firstn n l) -> In y (skipn n l) -> y <= x.
Proof.
  intros Hs. revert n. induction Hs as [|a l Hl IH Ha]; intros n x y Hx Hy.
  - destruct n; contradiction.
  - destruct n as [|n]; [contradiction|]. simpl in Hx, Hy.
    destruct Hx as [<-|Hx].
    + rewrite Forall_forall in Ha. apply Ha.
      rewrite <- (firstn_skipn n l). apply in_or_app. now right.
    + exact (IH n x y Hx Hy).
Qed.

Lemma lookup_picked (cols : list (string * Series)) (from : list (string * Series))
    (m : string) :
  Forall (fun c => lookup (fst c) from = Some (snd c)) cols ->
  In m (map fst cols) ->
  lookup m cols = lookup m from.
Proof.
  intros HF. induction HF as [|[n s] cols Hc HF IH]; intros Hin; [contradiction|].
  simpl in *. destruct (String.eqb n m) eqn:E.
  - apply String.eqb_eq in E. subst. now rewrite Hc.
  - destruct Hin as [->|Hin]; [rewrite String.eqb_refl in E; discriminate|].
    now apply IH.
Qed.

(** When every weighted metric is a column, line 146 shows a table with
    the Master Score and the raw (not normalised) columns of the metrics
    in scheme order, for the first [top_n] rows of the ranking (all of
    them if there are fewer); no market left out scores higher than a
    market shown. *)
Theorem results_table_shows_top
    (k : Series -> list nat) (metrics : dict Q) (top_n : nat) (df : DataFrame) :
  sorts_descending k -> wf df ->
  (forall m, In m (map fst metrics) -> In m all_metrics) ->
  (forall m, In m (map fst metrics) -> has_col df m = true) ->
  exists (ranked : DataFrame) (ms : Series) (table : DataFrame),
    score_and_rank k metrics df = Ok ranked /\
    getcol ranked "Master Score" = Ok ms /\
    results_table metrics top_n ranked = Ok table /\
    colnames table = "Master Score" :: map fst metrics /\
    index table = firstn top_n (index ranked) /\
    nrows table = Nat.min top_n (nrows df) /\
    getcol table "Master Score" = Ok (firstn top_n ms) /\
    (forall m c, In m (map fst metrics) -> getcol ranked m = Ok c ->
       getcol table m = Ok (firstn top_n c)) /\
    (forall x y, In x (firstn top_n ms) -> In y (skipn top_n ms) -> y <= x).
Proof.
  intros Hk Hwf Hkeys Hall.
  destruct (score_and_rank_run k metrics df Hk Hwf Hkeys)
    as [scored [ms0 [_ [Hms [_ [Hwfs [Hidx [Hraw Hrun]]]]]]]].
  destruct (sort_values_desc_spec k scored ms0 Hk Hwfs Hms)
    as [_ [Hgr [Hsorted [_ Hnr]]]].
  set (ranked := take_rows (k ms0) scored) in *.
  assert (Hhas : forall x, In x ("Master Score" :: map fst metrics) ->
                           has_col ranked x = true).
  { intros x [<-|Hx]; [now apply getcol_present in Hgr|].
    unfold ranked. rewrite has_col_take_rows.
    unfold has_col. rewrite (Hraw x (Hkeys x Hx)). exact (Hall x Hx). }
  destruct (pick_columns_all _ ranked Hhas) as [cols [Hpick [Hnames Hcols]]].
  assert (Hlk : forall m, In m ("Master Score" :: map fst metrics) ->
            lookup m (map (fun c => (fst c, firstn top_n (snd c))) cols)
            = option_map (firstn top_n) (lookup m (columns ranked))).
  { intros m Hm. rewrite lookup_map_cols. f_equal.
    apply lookup_picked; [exact Hcols | now rewrite Hnames]. }
  exists ranked, (take 0 (k ms0) ms0),
         (head top_n (mkDF (index ranked) cols)).
  split; [exact Hrun|]. split; [exact Hgr|].
  split; [unfold results_table; rewrite Hpick; reflexivity|].
  split; [unfold colnames, head; simpl; rewrite map_map; exact Hnames|].
  split; [reflexivity|].
  split.
  { unfold nrows, head. cbn [index]. rewrite length_firstn.
    fold (nrows ranked). rewrite Hnr. unfold nrows. now rewrite Hidx. }
  split.
  { unfold getcol, head. cbn [columns]. rewrite Hlk by now left.
    now rewrite (getcol_lookup _ _ _ Hgr). }
  split.
  { intros m c Hm Hg. unfold getcol, head. cbn [columns].
    rewrite Hlk by now right. now rewrite (getcol_lookup _ _ _ Hg). }
  now apply sorted_firstn_skipn.
Qed.

Lemma results_table_shows_top_witness :
  exists (ranked : DataFrame) (ms : Series) (table : DataFrame),
    score_and_rank insertion_argsort_desc present_weights sample_frame = Ok ranked /\
    getcol ranked "Master Score" = Ok ms /\
    results_table present_weights 2 ranked = Ok table /\
    colnames table = "Master Score" :: map fst present_weights /\
    index table = firstn 2 (index ranked) /\
    nrows table = Nat.min 2 (nrows sample_frame) /\
    getcol table "Master Score" = Ok (firstn 2 ms) /\
    (forall m c, In m (map fst present_weights) -> getcol ranked m = Ok c ->
       getcol table m = Ok (firstn 2 c)) /\
    (forall x y, In x (firstn 2 ms) -> In y (skipn 2 ms) -> y <= x).
Proof.
  apply (results_table_shows_top insertion_argsort_desc present_weights 2
           sample_frame).
  - exact insertion_argsort_contract.
  - repeat constructor.
  - simpl. intros k [<-|[<-|[<-|[]]]]; vm_compute; tauto.
  - simpl. intros k [<-|[<-|[<-|[]]]]; reflexivity.
Defined.

(** ** Looking a market up by name (lines 151-161) *)

Lemma unique_In (x : string) (l : list string) : In x (unique l) <-> In x l.
Proof.
  induction l as [|y l IH]; simpl; [tauto|].
  rewrite filter_In, IH. split.
  - intros [->|[H _]]; auto.
  - intros [->|H]; [now left|].
    destruct (String.eqb y x) eqn:E.
    + apply String.eqb_eq in E. now left.
    + right. split; [exact H | reflexivity].
Qed.

Lemma unique_NoDup (l : list string) : NoDup (unique l).
Proof.
  induction l as [|y l IH]; simpl; constructor.
  - rewrite filter_In. intros [_ H]. cbv beta in H.
    now rewrite String.eqb_refl in H.
  - now apply NoDup_filter.
Qed.

Lemma first_true_spec (mask : list bool) (p : nat) :
  first_true mask = Some p ->
  (p < List.length mask)%nat /\ nth p mask false = true /\
  forall q, (q < p)%nat -> nth q mask false = false.
Proof.
  revert p. induction mask as [|b mask IH]; intros p H; simpl in H; [discriminate|].
  destruct b.
  - injection H as <-. simpl. repeat split; [lia | intros q Hq; lia].
  - destruct (first_true mask) as [p'|] eqn:E; [|discriminate].
    simpl in H. injection H as <-. destruct (IH p' eq_refl) as [H1 [H2 H3]].
    simpl. repeat split; [lia | exact H2 |].
    intros [|q] Hq; [reflexivity | apply H3; lia].
Qed.

Lemma first_true_none (mask : list bool) :
  first_true mask = None -> forall q, nth q mask false = false.
Proof.
  induction mask as [|b mask IH]; intros H q; simpl in *; [now destruct q|].
  destruct b; [discriminate|].
  destruct (first_true mask); [discriminate|].
  destruct q; [reflexivity | now apply IH].
Qed.

Lemma select_first_true (A : Type) (mask : list bool) (l : list A) (d : A) (p : nat) :
  first_true mask = Some p -> List.length l = List.length mask ->
  exists rest, select mask l = nth p l d :: rest.
Proof.
  revert l p. induction mask as [|b mask IH]; intros l p H Hl; simpl in H;
    [discriminate|].
  destruct l as [|x l]; [discriminate|]. simpl in Hl.
  destruct b.
  - injection H as <-. simpl. eauto.
  - destruct (first_true mask) as [p'|] eqn:E; [|discriminate].
    simpl in H. injection H as <-. simpl. apply IH; [reflexivity | lia].
Qed.

Lemma select_no_true (A : Type) (mask : list bool) (l : list A) :
  first_true mask = None -> select mask l = [].
Proof.
  revert l. induction mask as [|b mask IH]; intros l H; simpl in *; [reflexivity|].
  destruct l as [|x l]; [reflexivity|].
  destruct b; [discriminate|].
  destruct (first_true mask); [discriminate | now apply IH].
Qed.

Lemma sorted_nth (l : Series) (i j : nat) :
  StronglySorted (fun x y => y <= x) l ->
  (i <= j)%nat -> (j < List.length l)%nat -> nth j l 0 <= nth i l 0.
Proof.
  intros Hs. revert i j. induction Hs as [|a l Hl IH Ha]; intros i j Hij Hj;
    simpl in Hj; [lia|].
  destruct i as [|i], j as [|j]; simpl; try lia.
  - apply Qle_refl.
  - rewrite Forall_forall in Ha. apply Ha. apply nth_In. lia.
  - apply IH; lia.
Qed.

Lemma dict_get_row (g : Series -> Q) (key : string) (cols : list (string * Series)) :
  dict_get key (map (fun c => (fst c, g (snd c))) cols)
  = match lookup key cols with
    | Some s => Ok (g s)
    | None => Raise (KeyError key)
    end.
Proof.
  induction cols as [|[n s] cols IH]; simpl; [reflexivity|].
  destruct (String.eqb n key); [reflexivity | exact IH].
Qed.

Lemma name_mask_nth (name : nat -> string) (m : string) (idx : list nat) (q : nat) :
  (q < List.length idx)%nat ->
  nth q (map (fun l => String.eqb (name l) m) idx) false
  = String.eqb (name (nth q idx 0%nat)) m.
Proof.
  intros Hq.
  rewrite (nth_indep _ false (String.eqb (name 0%nat) m)) by (now rewrite length_map).
  apply (map_nth (fun l => String.eqb (name l) m)).
Qed.

(** The record of a frame's first row that carries the name. *)
Lemma market_record_first (name : nat -> string) (df : DataFrame) (m : string) :
  wf df ->
  match first_true (map (fun l => String.eqb (name l) m) (index df)) with
  | Some p => market_record name df m = Found (row_at df p)
  | None => market_record name df m = IndexError
  end.
Proof.
  intros Hwf. unfold market_record. cbv zeta.
  set (mask := map (fun l => String.eqb (name l) m) (index df)).
  destruct (first_true mask) as [p|] eqn:E.
  - unfold filter_rows at 1. cbn [index].
    destruct (select_first_true _ mask (index df) 0%nat p E) as [rest Hsel];
      [unfold mask; now rewrite length_map|].
    rewrite Hsel. f_equal. unfold row_at, filter_rows. cbn [index columns].
    rewrite Hsel. simpl nth. f_equal. rewrite map_map.
    apply map_ext_in. intros [n s] Hin. cbn [fst snd]. f_equal.
    unfold wf in Hwf. rewrite Forall_forall in Hwf. specialize (Hwf _ Hin).
    destruct (select_first_true _ mask s 0 p E) as [rest' Hs'].
    + simpl in Hwf. unfold mask. rewrite length_map. exact Hwf.
    + now rewrite Hs'.
  - unfold filter_rows. cbn [index]. now rewrite select_no_true.
Qed.

(** The selector offers each market name of the ranked frame once.  A
    name it offers is always found: the lookup returns the record of the
    best-ranked row of that name, whose Master Score no other row of that
    name exceeds.  A name it does not offer ends in [IndexError]. *)
Theorem selected_market_is_found
    (name : nat -> string) (df : DataFrame) (ms : Series) (m : string) :
  wf df -> getcol df "Master Score" = Ok ms ->
  StronglySorted (fun x y => y <= x) ms ->
  NoDup (market_list name df) /\
  (In m (market_list name df) <-> exists l, In l (index df) /\ name l = m) /\
  (In m (market_list name df) ->
   exists pos,
     (pos < nrows df)%nat /\
     market_record name df m = Found (row_at df pos) /\
     name (fst (row_at df pos)) = m /\
     dict_get "Master Score" (snd (row_at df pos)) = Ok (nth pos ms 0) /\
     forall q, (q < nrows df)%nat -> name (nth q (index df) 0%nat) = m ->
       (pos <= q)%nat /\ nth q ms 0 <= nth pos ms 0) /\
  (~ In m (market_list name df) -> market_record name df m = IndexError).
Proof.
  intros Hwf Hg Hs.
  pose proof (wf_lookup _ _ _ Hwf (getcol_lookup _ _ _ Hg)) as Lms.
  assert (Hlist : In m (market_list name df)
                  <-> exists l, In l (index df) /\ name l = m).
  { unfold market_list. rewrite unique_In, in_map_iff.
    split; intros [l [H1 H2]]; exists l; auto. }
  pose proof (market_record_first name df m Hwf) as Hrec.
  set (mask := map (fun l => String.eqb (name l) m) (index df)) in *.
  split; [apply unique_NoDup|]. split; [exact Hlist|]. split.
  - intros Hin. apply Hlist in Hin. destruct Hin as [l [Hl Hn]].
    destruct (first_true mask) as [p|] eqn:E.
    + destruct (first_true_spec _ _ E) as [Hp [Ht Hbefore]].
      unfold mask in Hp. rewrite length_map in Hp.
      unfold mask in Ht. rewrite name_mask_nth in Ht by exact Hp.
      apply String.eqb_eq in Ht.
      exists p. split; [exact Hp|]. split; [exact Hrec|].
      split; [exact Ht|]. split.
      * unfold row_at. cbn [snd]. rewrite (dict_get_row (fun s => nth p s 0)).
        now rewrite (getcol_lookup _ _ _ Hg).
      * intros q Hq Hnq.
        assert (Hpq : (p <= q)%nat).
        { destruct (Nat.le_gt_cases p q) as [H|H]; [exact H|].
          specialize (Hbefore q H). unfold mask in Hbefore.
          rewrite name_mask_nth in Hbefore by exact Hq.
          apply String.eqb_neq in Hbefore. contradiction. }
        split; [exact Hpq|]. apply sorted_nth; [exact Hs | exact Hpq | lia].
    + exfalso. destruct (In_nth _ _ 0%nat Hl) as [q [Hq Hql]].
      pose proof (first_true_none _ E q) as Hf. unfold mask in Hf.
      rewrite name_mask_nth in Hf by exact Hq. rewrite Hql in Hf.
      apply String.eqb_neq in Hf. contradiction.
  - intros Hnot. destruct (first_true mask) as [p|] eqn:E; [|exact Hrec].
    exfalso. apply Hnot. apply Hlist.
    destruct (first_true_spec _ _ E) as [Hp [Ht _]].
    unfold mask in Hp. rewrite length_map in Hp.
    unfold mask in Ht. rewrite name_mask_nth in Ht by exact Hp.
    apply String.eqb_eq in Ht.
    exists (nth p (index df) 0%nat). split; [now apply nth_In | exact Ht].
Qed.

Lemma selected_market_is_found_witness :
  NoDup (market_list sample_names ranked_frame) /\
  (In "Boise" (market_list sample_names ranked_frame)
   <-> exists l, In l (index ranked_frame) /\ sample_names l = "Boise") /\
  (In "Boise" (market_list sample_names ranked_frame) ->
   exists pos,
     (pos < nrows ranked_frame)%nat /\
     market_record sample_names ranked_frame "Boise"
     = Found (row_at ranked_frame pos) /\
     sample_names (fst (row_at ranked_frame pos)) = "Boise" /\
     dict_get "Master Score" (snd (row_at ranked_frame pos))
     = Ok (nth pos [9; 5; 5] 0) /\
     forall q, (q < nrows ranked_frame)%nat ->
       sample_names (nth q (index ranked_frame) 0%nat) = "Boise" ->
       (pos <= q)%nat /\ nth q [9; 5; 5] 0 <= nth pos [9; 5; 5] 0) /\
  (~ In "Boise" (market_list sample_names ranked_frame) ->
   market_record sample_names ranked_frame "Boise" = IndexError).
Proof.
  apply (selected_market_is_found sample_names ranked_frame [9; 5; 5] "Boise").
  - repeat constructor.
  - reflexivity.
  - repeat constructor; discriminate.
Defined.

(** ** The comparison table (lines 163-167) *)

Lemma pick_columns_present names df cols :
  pick_columns names df = Ok cols ->
  forall m, In m names -> has_col df m = true.
Proof.
  revert cols. induction names as [|n rest IH]; intros cols H m Hin; [contradiction|].
  simpl in H. destruct (lookup n (columns df)) as [s|] eqn:Hl; [|discriminate].
  apply bind_ok in H. destruct H as [cols' [Hrest _]].
  destruct Hin as [<-|Hin].
  - unfold has_col. now rewrite Hl.
  - exact (IH cols' Hrest m Hin).
Qed.

Lemma lookups_row df pos names :
  (forall m, In m names -> has_col df m = true) ->
  lookups (snd (row_at df pos)) names
  = Ok (map (fun key => cell_at df key pos) names).
Proof.
  unfold row_at. cbn [snd].
  induction names as [|n rest IH]; intros Hall; [reflexivity|].
  cbn [lookups map].
  rewrite (dict_get_row (fun s => nth pos s 0)).
  destruct (has_col_getcol df n (Hall n (or_introl eq_refl))) as [s [_ Hl]].
  rewrite Hl. cbn [bind].
  rewrite IH by (intros m Hm; apply Hall; now right).
  cbn [bind]. unfold cell_at. cbv beta. now rewrite Hl.
Qed.

Lemma market_record_found name df m r :
  wf df -> market_record name df m = Found r ->
  exists pos, (pos < nrows df)%nat /\ r = row_at df pos /\
              name (nth pos (index df) 0%nat) = m.
Proof.
  intros Hwf H. pose proof (market_record_first name df m Hwf) as Hrec.
  destruct (first_true (map (fun l => String.eqb (name l) m) (index df)))
    as [p|] eqn:E; [|congruence].
  destruct (first_true_spec _ _ E) as [Hp [Ht _]].
  rewrite length_map in Hp. rewrite name_mask_nth in Ht by exact Hp.
  apply String.eqb_eq in Ht.
  exists p. split; [exact Hp|]. split; [congruence | exact Ht].
Qed.

(** Once the results table of line 146 has been built, the comparison of
    any two markets that are found cannot fail on a missing column: it
    lists "Master Score" and the weighted metrics in scheme order, and
    for each market the cells of its row in the ranked frame, the raw
    metric values rather than the normalised ones. *)
Theorem comparison_after_table
    (name : nat -> string) (metrics : dict Q) (top_n : nat)
    (ranked table : DataFrame) (market_a market_b : string) (a_data b_data : record) :
  wf ranked ->
  results_table metrics top_n ranked = Ok table ->
  market_record name ranked market_a = Found a_data ->
  market_record name ranked market_b = Found b_data ->
  exists pa pb : nat,
    (pa < nrows ranked)%nat /\ (pb < nrows ranked)%nat /\
    name (nth pa (index ranked) 0%nat) = market_a /\
    name (nth pb (index ranked) 0%nat) = market_b /\
    comp_table metrics a_data b_data
    = Ok ("Master Score" :: map fst metrics,
          map (fun key => cell_at ranked key pa) ("Master Score" :: map fst metrics),
          map (fun key => cell_at ranked key pb) ("Master Score" :: map fst metrics)).
Proof.
  intros Hwf Htab Ha Hb.
  unfold results_table in Htab. apply bind_ok in Htab.
  destruct Htab as [cols [Hpick _]].
  pose proof (pick_columns_present _ _ _ Hpick) as Hall.
  destruct (market_record_found _ _ _ _ Hwf Ha) as [pa [Hpa [-> Hna]]].
  destruct (market_record_found _ _ _ _ Hwf Hb) as [pb [Hpb [-> Hnb]]].
  exists pa, pb. repeat (split; [assumption|]).
  unfold comp_table. cbv zeta.
  rewrite (lookups_row ranked pa _ Hall). cbn [bind].
  rewrite (lookups_row ranked pb _ Hall). reflexivity.
Qed.

Lemma comparison_after_table_witness :
  exists pa pb : nat,
    (pa < nrows ranked_frame)%nat /\ (pb < nrows ranked_frame)%nat /\
    sample_names (nth pa (index ranked_frame) 0%nat) = "Tampa" /\
    sample_names (nth pb (index ranked_frame) 0%nat) = "Austin" /\
    comp_table one_weight (row_at ranked_frame 0) (row_at ranked_frame 2)
    = Ok ("Master Score" :: map fst one_weight,
          map (fun key => cell_at ranked_frame key pa)
              ("Master Score" :: map fst one_weight),
          map (fun key => cell_at ranked_frame key pb)
              ("Master Score" :: map fst one_weight)).
Proof.
  apply (comparison_after_table sample_names one_weight 10 ranked_frame
           (head 10 (mkDF (index ranked_frame)
                          [ ("Master Score", [9; 5; 5]); ("Market Score", [3; 2; 1]) ]))
           "Tampa" "Austin").
  - repeat constructor.
  - reflexivity.
  - reflexivity.
  - reflexivity.
Defined.

(** ** The whole pass (lines 27-142) *)

Lemma financial_model_frame a df price rev rent :
  wf df ->
  getcol df price_col = Ok price ->
  getcol df "Annual Revenue" = Ok rev ->
  getcol df "2 Bed SFR Median Rent" = Ok rent ->
  0 < interest_rate a -> loan_term_years a <> 0%Z ->
  Forall (fun p => ~ p == 0) price ->
  exists (out : DataFrame) (tcr : Series),
    financial_model a df = Ok out /\
    wf out /\ index out = index df /\
    getcol out "Total_Cash_Required" = Ok tcr.
Proof.
  intros Hwf Hp Hrev Hrent Hr Ht Hnz.
  pose proof (wf_lookup _ _ _ Hwf (getcol_lookup _ _ _ Hp)) as Lp.
  pose proof (wf_lookup _ _ _ Hwf (getcol_lookup _ _ _ Hrev)) as Lrev.
  pose proof (wf_lookup _ _ _ Hwf (getcol_lookup _ _ _ Hrent)) as Lrent.
  destruct (financial_model_run a df price rev rent Hp Hrev Hrent Hr Ht Hnz)
    as [mm [df6 [Hmm [Hcf Hrun]]]].
  assert (Lmm : List.length mm = nrows df).
  { rewrite monthly_mortgage_positive_rate in Hmm by assumption.
    injection Hmm as <-. now rewrite !length_map. }
  assert (Hrev1 : getcol (setcol df "Est_Mortgage" mm) "Annual Revenue" = Ok rev)
    by (rewrite getcol_setcol_other by discriminate; exact Hrev).
  assert (Hrent1 : getcol (setcol df "Est_Mortgage" mm) "2 Bed SFR Median Rent"
                   = Ok rent)
    by (rewrite getcol_setcol_other by discriminate; exact Hrent).
  rewrite (cash_flows_run a (setcol df "Est_Mortgage" mm) rev rent mm
             Hrev1 Hrent1 (getcol_setcol_same df "Est_Mortgage" mm)) in Hcf.
  cbv zeta in Hcf. injection Hcf as <-.
  destruct (cash_flow_lengths (str_expense_ratio a) (ltr_expense_ratio a)
              rev rent mm _ Lrev Lrent Lmm) as [Ls Ll].
  eexists. eexists. split; [exact Hrun|].
  split.
  { repeat apply wf_setcol; try exact Hwf;
      unfold nrows in *; cbn [setcol index] in *;
      rewrite ?length_map; try assumption; rewrite map2_length; lia. }
  split; [reflexivity | apply getcol_setcol_same].
Qed.

Lemma resolve_weights_keys (w : Widgets) :
  mode w = DetailedMetrics \/ In (preset_choice w) (map fst presets) ->
  exists metrics, resolve_weights w = Ok metrics /\ map fst metrics = all_metrics.
Proof.
  intros H. destruct (mode w) eqn:Hm.
  - destruct H as [H|Hp]; [discriminate|].
    assert (Hpw : exists pw, dict_get (preset_choice w) presets = Ok pw).
    { simpl in Hp. destruct Hp as [E|[E|[E|[]]]]; rewrite <- E; eexists; reflexivity. }
    destruct Hpw as [pw Hpw].
    destruct (preset_has_groups _ _ Hpw) as [d1 [d2 [d3 [d4 [H1 [H2 [H3 H4]]]]]]].
    eexists. split; [apply (theme_resolution w pw d1 d2 d3 d4); assumption|].
    reflexivity.
  - eexists. split; [apply detailed_resolution; exact Hm | reflexivity].
Qed.

(** Scoring leaves every column alone whose name is neither "Master
    Score" nor a recognised metric followed by [_norm]. *)
Lemma master_score_keeps (metrics : dict Q) (df scored : DataFrame) (name : string) :
  wf df ->
  (forall m, In m (map fst metrics) -> In m all_metrics) ->
  master_score metrics df = Ok scored ->
  name <> "Master Score" ->
  (forall col, In col all_metrics -> name <> col ++ "_norm") ->
  lookup name (columns scored) = lookup name (columns df).
Proof.
  intros Hwf Hkeys Hrun Hms Hnn.
  assert (HK : forall it, In it metrics -> In (fst it) all_metrics)
    by (intros it Hit; apply Hkeys; now apply in_map).
  destruct (master_score_run metrics df Hwf Hkeys)
    as [dfk [score [Hloop [Hrun' _]]]].
  rewrite Hrun in Hrun'. injection Hrun' as ->.
  destruct (score_loop_columns df all_metrics all_metrics_fresh metrics df
              (Scalar 0) dfk score HK Hwf eq_refl (fun _ _ => eq_refl) Hloop)
    as [_ [_ Hkeep]].
  unfold setval, setcol. simpl.
  rewrite lookup_assign_other by (intros E; apply Hms; now symmetry).
  apply Hkeep. intros col w Hin _. apply Hnn. exact (HK (col, w) Hin).
Qed.

Lemma take_In (A : Type) (d : A) (p : list nat) (l : list A) (x : A) :
  Permutation p (seq 0 (List.length l)) -> In x (take d p l) -> In x l.
Proof.
  intros Hp Hx. unfold take in Hx. apply in_map_iff in Hx.
  destruct Hx as [i [<- Hi]]. apply nth_In.
  apply (Permutation_in _ Hp) in Hi. apply in_seq in Hi. lia.
Qed.

Lemma total_cash_not_norm col :
  In col all_metrics -> "Total_Cash_Required" <> col ++ "_norm".
Proof.
  intros Hk.
  assert (H : forallb (fun a => negb (String.eqb "Total_Cash_Required" (a ++ "_norm")))
                      all_metrics = true) by (vm_compute; reflexivity).
  rewrite forallb_forall in H. specialize (H col Hk).
  apply negb_true_iff in H. now apply String.eqb_neq.
Qed.

(** On a sheet with the three raw columns, a positive rate, a term other
    than 0, no zero price, and either detailed mode or a known preset, the
    whole pass completes under any descending sorting kernel: the ranked
    frame is well formed, its Master Score falls from top to bottom, all
    its markets are markets of the sheet, and every one of them needs no
    more cash than the ceiling. *)
Theorem pipeline_completes
    (k : Series -> list nat) (a : Assumptions) (w : Widgets) (df : DataFrame)
    (price rev rent : Series) :
  sorts_descending k -> wf df ->
  getcol df price_col = Ok price ->
  getcol df "Annual Revenue" = Ok rev ->
  getcol df "2 Bed SFR Median Rent" = Ok rent ->
  0 < interest_rate a -> loan_term_years a <> 0%Z ->
  Forall (fun p => ~ p == 0) price ->
  mode w = DetailedMetrics \/ In (preset_choice w) (map fst presets) ->
  exists (ranked : DataFrame) (ms tcr : Series),
    pipeline k a w df = Ok ranked /\
    wf ranked /\
    getcol ranked "Master Score" = Ok ms /\
    StronglySorted (fun x y => y <= x) ms /\
    getcol ranked "Total_Cash_Required" = Ok tcr /\
    Forall (fun t => t <= max_investment a) tcr /\
    (forall l, In l (index ranked) -> In l (index df)) /\
    (nrows ranked <= nrows df)%nat.
Proof.
  intros Hk Hwf Hp Hrev Hrent Hr Ht Hnz Hw.
  destruct (financial_model_frame a df price rev rent Hwf Hp Hrev Hrent Hr Ht Hnz)
    as [out1 [t1 [Hfm [Hwf1 [Hidx1 Ht1]]]]].
  set (f := fun x => Qle_bool x (max_investment a)).
  set (filtered := filter_rows (map f t1) out1).
  assert (Hcf : capital_filter a out1 = Ok filtered)
    by (unfold capital_filter; rewrite Ht1; reflexivity).
  assert (Hwf2 : wf filtered) by now apply wf_filter_rows.
  assert (Ht2 : getcol filtered "Total_Cash_Required" = Ok (select (map f t1) t1))
    by now apply getcol_filter_rows.
  destruct (resolve_weights_keys w Hw) as [metrics [Hres Hkeys]].
  assert (Hkeys' : forall m, In m (map fst metrics) -> In m all_metrics)
    by (intros m Hm; now rewrite Hkeys in Hm).
  destruct (score_and_rank_run k metrics filtered Hk Hwf2 Hkeys')
    as [scored [ms0 [Hms [Hgs [Hlen [Hwfs [Hidxs [_ Hrun]]]]]]]].
  destruct (sort_values_desc_spec k scored ms0 Hk Hwfs Hgs)
    as [_ [Hgr [Hsorted [_ Hnr]]]].
  destruct (Hk ms0) as [Hperm _].
  pose proof (master_score_keeps metrics filtered scored "Total_Cash_Required"
                Hwf2 Hkeys' Hms ltac:(discriminate) total_cash_not_norm) as Hkeep.
  assert (Lt2 : List.length (select (map f t1) t1) = List.length ms0).
  { rewrite Hlen. exact (wf_lookup _ _ _ Hwf2 (getcol_lookup _ _ _ Ht2)). }
  exists (take_rows (k ms0) scored), (take 0 (k ms0) ms0),
         (take 0 (k ms0) (select (map f t1) t1)).
  split.
  { unfold pipeline. rewrite Hfm. cbn [bind]. rewrite Hcf. cbn [bind].
    rewrite Hres. cbn [bind]. exact Hrun. }
  split; [apply wf_take_rows|].
  split; [exact Hgr|]. split; [exact Hsorted|].
  split.
  { unfold getcol, take_rows. cbn [columns]. rewrite lookup_map_cols, Hkeep.
    now rewrite (getcol_lookup _ _ _ Ht2). }
  split.
  { apply Forall_forall. intros x Hx.
    apply (take_In _ 0) in Hx; [|now rewrite Lt2].
    pose proof (select_map_holds f t1) as Hsel. rewrite Forall_forall in Hsel.
    apply Qle_bool_iff. exact (Hsel x Hx). }
  split.
  { intros l Hl. unfold take_rows in Hl. cbn [index] in Hl.
    apply (take_In _ 0%nat) in Hl.
    - rewrite Hidxs in Hl. unfold filtered, filter_rows in Hl. cbn [index] in Hl.
      apply select_In in Hl. now rewrite Hidx1 in Hl.
    - assert (E : List.length (index scored) = List.length ms0)
        by (rewrite Hlen; unfold nrows; now rewrite Hidxs).
      now rewrite E. }
  rewrite Hnr.
  assert (E : nrows scored = nrows filtered) by (unfold nrows; now rewrite Hidxs).
  rewrite E. unfold nrows, filtered, filter_rows. cbn [index].
  rewrite <- Hidx1. apply select_length_le.
Qed.

Lemma pipeline_completes_witness :
  exists (ranked : DataFrame) (ms tcr : Series),
    pipeline insertion_argsort_desc default_assumptions default_widgets priced_frame
    = Ok ranked /\
    wf ranked /\
    getcol ranked "Master Score" = Ok ms /\
    StronglySorted (fun x y => y <= x) ms /\
    getcol ranked "Total_Cash_Required" = Ok tcr /\
    Forall (fun t => t <= max_investment default_assumptions) tcr /\
    (forall l, In l (index ranked) -> In l (index priced_frame)) /\
    (nrows ranked <= nrows priced_frame)%nat.
Proof.
  apply (pipeline_completes insertion_argsort_desc default_assumptions
           default_widgets priced_frame
           [100000; 250000; 400000] [30000; 48000; 60000] [1200; 1800; 2500]).
  - exact insertion_argsort_contract.
  - repeat constructor.
  - reflexivity.
  - reflexivity.
  - reflexivity.
  - reflexivity.
  - discriminate.
  - repeat constructor; discriminate.
  - right. simpl. left. reflexivity.
Defined.

(** ** Rescaling a metric does not move the scores (lines 131-141) *)

Lemma Forall2_Qeq_nth (l1 l2 : Series) (i : nat) :
  Forall2 Qeq l1 l2 -> nth i l1 0 == nth i l2 0.
Proof.
  intros H. revert i. induction H as [|x y l1 l2 Hxy H IH]; intros i.
  - destruct i; reflexivity.
  - destruct i; simpl; [exact Hxy | apply IH].
Qed.

Lemma fold_sum_ext (g g' : string -> Q) (l : dict Q) (a : Q) :
  (forall k, g k == g' k) ->
  fold_left (fun acc item => acc + snd item * g (fst item)) l a
  == fold_left (fun acc item => acc + snd item * g' (fst item)) l a.
Proof.
  intros Hg. revert a. induction l as [|[k w] l IH]; intros a; simpl; [reflexivity|].
  rewrite IH. apply (fold_sum_compat g'). rewrite (Hg k). reflexivity.
Qed.

Lemma lookup_setcol df c s c' :
  lookup c' (columns (setcol df c s))
  = if String.eqb c c' then Some s else lookup c' (columns df).
Proof.
  unfold setcol. simpl. destruct (String.eqb c c') eqn:E.
  - apply String.eqb_eq in E. subst. apply lookup_assign_same.
  - apply String.eqb_neq in E. now apply lookup_assign_other.
Qed.

(** Replacing a metric's column by an increasing affine image of it (a
    change of unit or origin) changes no market's Master Score. *)
Theorem master_score_unit_invariant
    (metrics : dict Q) (df : DataFrame) (col : string) (c : Series) (a b : Q) :
  wf df ->
  (forall k, In k (map fst metrics) -> In k all_metrics) ->
  getcol df col = Ok c -> 0 < a ->
  exists (out out' : DataFrame) (ms ms' : Series),
    master_score metrics df = Ok out /\
    master_score metrics (setcol df col (map (fun v => a * v + b) c)) = Ok out' /\
    getcol out "Master Score" = Ok ms /\
    getcol out' "Master Score" = Ok ms' /\
    forall i, (i < nrows df)%nat -> nth i ms' 0 == nth i ms 0.
Proof.
  intros Hwf Hkeys Hg Ha.
  pose proof (getcol_lookup _ _ _ Hg) as Hl.
  pose proof (wf_lookup _ _ _ Hwf Hl) as Hlen.
  set (df' := setcol df col (map (fun v => a * v + b) c)).
  assert (Hwf' : wf df') by (apply wf_setcol; [exact Hwf | now rewrite length_map]).
  destruct (master_score_run metrics df Hwf Hkeys)
    as [dfk [score [_ [Hrun [_ [_ [_ Hcell]]]]]]].
  destruct (master_score_run metrics df' Hwf' Hkeys)
    as [dfk' [score' [_ [Hrun' [_ [_ [_ Hcell']]]]]]].
  do 4 eexists. split; [exact Hrun|]. split; [exact Hrun'|].
  split; [apply getcol_setcol_same|]. split; [apply getcol_setcol_same|].
  intros i Hi. rewrite (Hcell i Hi), (Hcell' i Hi). unfold weighted_sum.
  assert (Hhas : forall x, has_col df' x = has_col df x).
  { intros x. unfold has_col, df'. rewrite lookup_setcol.
    destruct (String.eqb col x) eqn:E; [|reflexivity].
    apply String.eqb_eq in E. subst. now rewrite Hl. }
  rewrite (filter_ext _ (fun item => has_col df (fst item)))
    by (intros it; apply Hhas).
  apply (fold_sum_ext (fun x => directional_norm df' x i)
                      (fun x => directional_norm df x i)).
  intros x. unfold directional_norm, df'.
  rewrite lookup_setcol. destruct (String.eqb col x) eqn:E; [|reflexivity].
  apply String.eqb_eq in E. subst x. rewrite Hl. cbv zeta.
  pose proof (Forall2_Qeq_nth _ _ i (normalization_affine_cells a b c Ha)) as En.
  destruct (is_cost_like col); now rewrite En.
Qed.

Lemma master_score_unit_invariant_witness :
  exists (out out' : DataFrame) (ms ms' : Series),
    master_score sample_weights sample_frame = Ok out /\
    master_score sample_weights
      (setcol sample_frame "Market Score" (map (fun v => 100 * v + 7) [1; 2; 3]))
    = Ok out' /\
    getcol out "Master Score" = Ok ms /\
    getcol out' "Master Score" = Ok ms' /\
    forall i, (i < nrows sample_frame)%nat -> nth i ms' 0 == nth i ms 0.
Proof.
  apply (master_score_unit_invariant sample_weights sample_frame "Market Score"
           [1; 2; 3] 100 7).
  - repeat constructor.
  - simpl. intros k [<-|[<-|[<-|[]]]]; vm_compute; tauto.
  - reflexivity.
  - reflexivity.
Defined.

Lemma is_min_affine_neg a b s m :
  a < 0 -> is_max s m -> is_min (map (fun v => a * v + b) s) (a * m + b).
Proof.
  intros Ha [Hex Hall]. split.
  - apply Exists_exists. apply Exists_exists in Hex. destruct Hex as [x [Hx E]].
    exists (a * x + b). split; [exact (in_map (fun v => a * v + b) s x Hx)|].
    now rewrite E.
  - apply Forall_map. eapply Forall_impl; [|exact Hall].
    intros x Hx. simpl in Hx.
    assert (H : 0 <= (- a) * (m - x)) by (apply Qmult_le_0_compat; lra).
    assert (E : (- a) * (m - x) == a * x - a * m) by ring. lra.
Qed.

Lemma is_max_affine_neg a b s m :
  a < 0 -> is_min s m -> is_max (map (fun v => a * v + b) s) (a * m + b).
Proof.
  intros Ha [Hex Hall]. split.
  - apply Exists_exists. apply Exists_exists in Hex. destruct Hex as [x [Hx E]].
    exists (a * x + b). split; [exact (in_map (fun v => a * v + b) s x Hx)|].
    now rewrite E.
  - apply Forall_map. eapply Forall_impl; [|exact Hall].
    intros x Hx. simpl in Hx.
    assert (H : 0 <= (- a) * (x - m)) by (apply Qmult_le_0_compat; lra).
    assert (E : (- a) * (x - m) == a * m - a * x) by ring. lra.
Qed.

(** Changing the unit or the origin of a metric (an increasing affine
    change of every value of the column) leaves its normalised column as
    it was; a decreasing affine change of a column that is not constant
    turns every normalised value [n] into [1 - n]. *)
Theorem normalization_affine_invariant (a b : Q) (s : Series) :
  (0 < a ->
   Forall2 Qeq (normalized (map (fun v => a * v + b) s)) (normalized s)) /\
  (a < 0 ->
   forall mn mx, is_min s mn -> is_max s mx -> ~ mx == mn ->
     Forall2 (fun n' n => n' == 1 - n)
             (normalized (map (fun v => a * v + b) s)) (normalized s)).
Proof.
  split; [apply normalization_affine_cells|].
  intros Ha mn mx Hmn Hmx E.
  pose proof (is_min_affine_neg a b s mx Ha Hmx) as Hmn'.
  pose proof (is_max_affine_neg a b s mn Ha Hmn) as Hmx'.
  assert (E' : ~ a * mn + b == a * mx + b).
  { intros H. apply E.
    assert (H0 : a * (mx - mn) == 0) by (ring_simplify; lra).
    apply Qmult_integral in H0. destruct H0 as [H0|H0]; lra. }
  pose proof (normalized_nondegenerate _ _ _ Hmn Hmx E) as HF.
  pose proof (normalized_nondegenerate _ _ _ Hmn' Hmx' E') as HF'.
  clear Hmn Hmx Hmn' Hmx'.
  revert HF'. generalize (normalized (map (fun v => a * v + b) s)).
  induction HF as [|n v ns vs Hn HF IH]; intros l HF'; simpl in HF';
    inversion HF' as [|n' v' ns' vs' Hn' HFt]; subst; constructor.
  - rewrite Hn, Hn'. field. split; [lra|].
    intros H. apply E'. lra.
  - now apply IH.
Qed.

Lemma normalization_affine_invariant_witness :
  Forall2 Qeq (normalized (map (fun v => 100 * v + 7) [1; 3; 2]))
              (normalized [1; 3; 2]) /\
  Forall2 (fun n' n => n' == 1 - n)
          (normalized (map (fun v => (- 2) * v + 7) [1; 3; 2]))
          (normalized [1; 3; 2]).
Proof.
  split.
  - apply (proj1 (normalization_affine_invariant 100 7 [1; 3; 2])). reflexivity.
  - apply (proj2 (normalization_affine_invariant (- 2) 7 [1; 3; 2]))
      with (mn := 1) (mx := 3).
    + reflexivity.
    + split; [constructor 1; reflexivity | repeat constructor; discriminate].
    + split; [constructor 2; constructor 1; reflexivity
             | repeat constructor; discriminate].
    + discriminate.
Defined.
